(** * chat-mail: the incoming-email webhook handler of [src/api/index.ts]

    The handler receives a Mailgun webhook body, builds a multi-modal chat
    completion request from the stripped text and the image attachments,
    asks the completion provider for a reply and mails that reply back.

    The repository keeps two earlier variants of the same route, which
    take no attachments; the handler embedded here is the current one.

    The embedding is shallow.  JavaScript values that reach the handler are
    modelled by [JsValue]; the handler's [try] block is a computation in a
    small trace-and-exception monad [M]; the host functions and the three
    network collaborators ([JSON.parse], [fetch], the completion client and
    the mail client) are the fields of a [World], so every theorem holds
    for every behaviour of the outside world. *)

From Stdlib Require Import List String Ascii NArith ZArith Bool Lia.
From Stdlib Require Import Strings.Byte.
From Stdlib Require Import DecimalString.
From Stdlib Require Import Floats.SpecFloat.
Import ListNotations.
Local Open Scope string_scope.
Local Open Scope list_scope.

(** ** JavaScript values *)

(** The values a parsed request body (JSON or url-encoded form) and the
    result of [JSON.parse] can hold.  A number is an IEEE 754 double, an
    object is its list of own properties.  A string is a sequence of
    characters, each standing for one code unit. *)
#[warnings="-register-all"] Inductive JsValue : Type :=
| VUndefined
| VNull
| VBool (b : bool)
| VNum (x : spec_float)
| VStr (s : string)
| VArr (elems : list JsValue)
| VObj (props : list (string * JsValue)).

(** Why a [TypeError] was raised; the text of its message is the engine's. *)
Inductive type_error : Type :=
| ReadOfNullish (base : JsValue) (prop : string)
| NotAFunction (prop : string)
| NotIterable
| NoPrimitiveValue.

(** Thrown values.  [Error m] is an instance of [Error] (or of a subclass
    a collaborator rejects with) whose message is [m]; a [TypeError] of the
    engine and a [SyntaxError] of [JSON.parse] are instances of [Error]
    too; [NonError] is any thrown value that is not. *)
Inductive exn : Type :=
| Error (message : string)
| TypeError (why : type_error)
| SyntaxError (message : string)
| NonError.

Definition result (A : Type) : Type := (exn + A)%type.

Fixpoint assoc {A : Type} (k : string) (l : list (string * A)) : option A :=
  match l with
  | [] => None
  | (k', v) :: l' => if String.eqb k k' then Some v else assoc k l'
  end.

(** [ToBoolean]: the test of [if (x)], [!x] and [x && y]. *)
Definition ToBoolean (v : JsValue) : bool :=
  match v with
  | VUndefined | VNull => false
  | VBool b => b
  | VNum (S754_zero _) | VNum S754_nan => false
  | VNum _ => true
  | VStr s => negb (String.eqb s "")
  | VArr _ | VObj _ => true
  end.

(** [typeof v === "string"]. *)
Definition typeof_is_string (v : JsValue) : bool :=
  match v with VStr _ => true | _ => false end.

Definition number_of_N (n : N) : spec_float :=
  match n with
  | N0 => S754_zero false
  | Npos p => S754_finite false p 0
  end.

(** [v === 0]. *)
Definition strict_equals_zero (v : JsValue) : bool :=
  match v with VNum (S754_zero _) => true | _ => false end.

(** The property read [base[k]] (or [base.k]) for the property names the
    handler reads: "sender", "subject", "stripped-text", "Message-Id",
    "attachments", "length", "content-type" and "url".  None of them is
    inherited from a prototype except "length", an own property of arrays
    and strings.  Reading a property of [undefined] or [null] throws. *)
Definition get (base : JsValue) (k : string) : result JsValue :=
  match base with
  | VUndefined | VNull => inl (TypeError (ReadOfNullish base k))
  | VObj props =>
      match assoc k props with Some v => inr v | None => inr VUndefined end
  | VArr elems =>
      if String.eqb k "length"
      then inr (VNum (number_of_N (N.of_nat (List.length elems))))
      else inr VUndefined
  | VStr s =>
      if String.eqb k "length"
      then inr (VNum (number_of_N (N.of_nat (String.length s))))
      else inr VUndefined
  | VBool _ | VNum _ => inr VUndefined
  end.

(** The method call [v.startsWith(p)].  Only a string has the method; on
    [undefined] and [null] the property read throws, on every other value
    the property is not callable (a parsed value holds no function). *)
Definition startsWith (v : JsValue) (p : string) : result bool :=
  match v with
  | VStr s => inr (String.prefix p s)
  | VUndefined | VNull => inl (TypeError (ReadOfNullish v "startsWith"))
  | _ => inl (TypeError (NotAFunction "startsWith"))
  end.

(** The values a [for ... of] loop visits: the elements of an array, the
    characters of a string; anything else is not iterable. *)
Definition iterate (v : JsValue) : result (list JsValue) :=
  match v with
  | VArr elems => inr elems
  | VStr s => inr (map (fun c => VStr (String c "")) (list_ascii_of_string s))
  | _ => inl (TypeError NotIterable)
  end.

Definition join (sep : string) (l : list string) : string :=
  match l with
  | [] => ""
  | x :: l' => fold_left (fun acc y => (acc ++ sep ++ y)%string) l' x
  end.

Section ToString.
(** [Number.prototype.toString] on a double is the host's. *)
Variable Number_toString : spec_float -> string.

(** [ToString], as a template literal applies it.  An array is joined
    with commas, [undefined] and [null] elements giving the empty string;
    a plain object gives "[object Object]" unless an own "toString"
    property (never callable in a parsed value) hides the inherited
    method, in which case no primitive value is found. *)
Fixpoint ToString (v : JsValue) : result string :=
  match v with
  | VUndefined => inr "undefined"
  | VNull => inr "null"
  | VBool true => inr "true"
  | VBool false => inr "false"
  | VNum x => inr (Number_toString x)
  | VStr s => inr s
  | VArr elems =>
      let fix elements (l : list JsValue) : result (list string) :=
        match l with
        | [] => inr []
        | e :: l' =>
            match (match e with
                   | VUndefined | VNull => inr ""
                   | _ => ToString e
                   end) with
            | inl err => inl err
            | inr s =>
                match elements l' with
                | inl err => inl err
                | inr ss => inr (s :: ss)
                end
            end
        end in
      match elements elems with
      | inl err => inl err
      | inr ss => inr (join "," ss)
      end
  | VObj props =>
      match assoc "toString" props with
      | Some _ => inl (TypeError NoPrimitiveValue)
      | None => inr "[object Object]"
      end
  end.
End ToString.

(** ** [Buffer.toString("base64")] *)

Definition base64_alphabet : list ascii :=
  list_ascii_of_string
    "ABCDEFGHIJKLMNOPQRSTUVWXYZabcdefghijklmnopqrstuvwxyz0123456789+/".

Definition base64_digit (n : N) : ascii :=
  nth (N.to_nat n) base64_alphabet "="%char.

Fixpoint base64 (bytes : list byte) : string :=
  match bytes with
  | [] => ""
  | [a] =>
      let x := Byte.to_N a in
      String (base64_digit (x / 4))
        (String (base64_digit (x mod 4 * 16)) "==")
  | [a; b] =>
      let x := Byte.to_N a in
      let y := Byte.to_N b in
      String (base64_digit (x / 4))
        (String (base64_digit (x mod 4 * 16 + y / 16))
           (String (base64_digit (y mod 16 * 4)) "="))
  | a :: b :: c :: rest =>
      let x := Byte.to_N a in
      let y := Byte.to_N b in
      let z := Byte.to_N c in
      String (base64_digit (x / 4))
        (String (base64_digit (x mod 4 * 16 + y / 16))
           (String (base64_digit (y mod 16 * 4 + z / 64))
              (String (base64_digit (z mod 64)) (base64 rest))))
  end.

(** The decimal rendering of an integer, as [`${response.status}`] gives. *)
Definition decimal (n : N) : string := NilZero.string_of_uint (N.to_uint n).

(** ** The collaborators' data *)

(** [ContentPart] of the handler: a text part carries [strippedText] as it
    came, an image part carries the data URI. *)
Inductive ContentPart : Type :=
| text_part (text : JsValue)
| image_url_part (url : string).

Inductive MessageContent : Type :=
| content_string (s : string)
| content_parts (parts : list ContentPart).

Record ChatCompletionMessageParam : Type := {
  role : string;
  content : MessageContent
}.

(** The argument of [openai.chat.completions.create]. *)
Record CompletionRequest : Type := {
  messages : list ChatCompletionMessageParam;
  model : string;
  max_tokens : N
}.

(** What the handler reads of a completion: [choices[0]?.message?.content]. *)
Record ChatCompletionMessage : Type := { message_content : option string }.
Record Choice : Type := { message : option ChatCompletionMessage }.
Record ChatCompletion : Type := { choices : list Choice }.

(** The second argument of [mg.messages.create]. *)
Record MessageData : Type := {
  md_from : string;
  md_to : JsValue;
  md_subject : string;
  md_text : string;
  md_In_Reply_To : JsValue;
  md_References : JsValue
}.

(** What the handler reads of a [fetch] response; [arrayBuffer] may reject. *)
Record FetchResponse : Type := {
  ok : bool;
  status : N;
  statusText : string;
  arrayBuffer : result (list byte)
}.

(** The calls the handler makes to the network, in the order it makes them
    (console output is not recorded). *)
Inductive event : Type :=
| EFetch (url : JsValue)
| ECompletion (request : CompletionRequest)
| ESend (domain : string) (data : MessageData).

Definition trace : Type := list event.

(** Everything outside the handler.  A network collaborator answers a call
    knowing the calls made so far, so it may answer the same call
    differently the second time. *)
Record World : Type := {
  JSON_parse : string -> result JsValue;
  Number_toString : spec_float -> string;
  TypeError_message : type_error -> string;
  MAILGUN_DOMAIN : string;
  FROM_EMAIL : string;
  fetch : trace -> JsValue -> result FetchResponse;
  chat_completions_create : trace -> CompletionRequest -> result ChatCompletion;
  messages_create : trace -> string -> MessageData -> result unit
}.

(** ** The monad of the [try] block *)

Definition M (A : Type) : Type := trace -> result A * trace.

Definition ret {A : Type} (a : A) : M A := fun tr => (inr a, tr).

Definition throw {A : Type} (e : exn) : M A := fun tr => (inl e, tr).

Definition bind {A B : Type} (m : M A) (k : A -> M B) : M B :=
  fun tr =>
    match m tr with
    | (inl e, tr') => (inl e, tr')
    | (inr a, tr') => k a tr'
    end.

(** A computation without network calls. *)
Definition lift {A : Type} (r : result A) : M A := fun tr => (r, tr).

(** An awaited call: the collaborator answers from the history, the call is
    recorded, a rejection is thrown. *)
Definition await {A : Type} (ev : event) (answer : trace -> result A) : M A :=
  fun tr => (answer tr, tr ++ [ev]).

Declare Scope js_scope.
Delimit Scope js_scope with js.
Notation "x <- m ;; k" := (bind m (fun x => k))
  (at level 61, m at next level, right associativity) : js_scope.
Notation "m ;; k" := (bind m (fun _ => k))
  (at level 61, right associativity) : js_scope.
Local Open Scope js_scope.

(** ** The handler *)

Section Handler.
Variable w : World.

(** [downloadAttachment], lines 58-68. *)
Definition downloadAttachment (url : JsValue) : M (list byte) :=
  response <- await (EFetch url) (fun tr => fetch w tr url) ;;
  if negb (ok response)
  then throw (Error ("Failed to download attachment: "
                     ++ decimal (status response) ++ " "
                     ++ statusText response)%string)
  else lift (arrayBuffer response).

(** The local constants of lines 76-83. *)
Record Extracted : Type := {
  sender : JsValue;
  subject : JsValue;
  strippedText : JsValue;
  messageId : JsValue;
  attachments : JsValue
}.

(** Lines 80-83: the attachment list, parsed from [body.attachments]
    when that is a non-empty string, empty otherwise. *)
Definition parse_attachments (raw : JsValue) : result JsValue :=
  if ToBoolean raw && typeof_is_string raw
  then match raw with
       | VStr s => JSON_parse w s
       | _ => inr (VArr [])
       end
  else inr (VArr []).

(** Lines 73-83: the reads of the body and the parse of [attachments]. *)
Definition extract (body : JsValue) : M Extracted :=
  sender <- lift (get body "sender") ;;
  subject <- lift (get body "subject") ;;
  strippedText <- lift (get body "stripped-text") ;;
  messageId <- lift (get body "Message-Id") ;;
  raw <- lift (get body "attachments") ;;
  attachments <- lift (parse_attachments raw) ;;
  ret {| sender := sender; subject := subject;
         strippedText := strippedText; messageId := messageId;
         attachments := attachments |}.

(** Lines 85-87; [&&] reads [attachments.length] only when the text is
    falsy. *)
Definition validate (x : Extracted) : M unit :=
  empty <-
    (if negb (ToBoolean (strippedText x))
     then len <- lift (get (attachments x) "length") ;;
          ret (strict_equals_zero len)
     else ret false) ;;
  if (empty : bool)
  then throw (Error "No email content or attachments found")
  else ret tt.

Definition system_message : ChatCompletionMessageParam :=
  {| role := "system";
     content := content_string
       "You are a helpful email assistant. Provide clear and concise responses. If images are included, describe them and incorporate their context into your response." |}.

(** The body of the loop, lines 113-124. *)
Definition process_attachment (attachment : JsValue)
    (userContent : list ContentPart) : M (list ContentPart) :=
  contentType <- lift (get attachment "content-type") ;;
  isImage <- lift (startsWith contentType "image/") ;;
  if (isImage : bool)
  then
    url <- lift (get attachment "url") ;;
    imageBuffer <- downloadAttachment url ;;
    let base64Image := base64 imageBuffer in
    contentType' <- lift (get attachment "content-type") ;;
    mime <- lift (ToString (Number_toString w) contentType') ;;
    ret (userContent
           ++ [image_url_part
                 ("data:" ++ mime ++ ";base64," ++ base64Image)%string])
  else ret userContent.

(** The loop of lines 112-125 over the visited values. *)
Fixpoint process_attachments (items : list JsValue)
    (userContent : list ContentPart) : M (list ContentPart) :=
  match items with
  | [] => ret userContent
  | attachment :: rest =>
      userContent' <- process_attachment attachment userContent ;;
      process_attachments rest userContent'
  end.

(** Lines 102-107: [userContent] when the loop starts. *)
Definition initial_userContent (x : Extracted) : list ContentPart :=
  let userContent := [] in
  if ToBoolean (strippedText x)
  then userContent ++ [text_part (strippedText x)]
  else userContent.

(** Lines 102-125: the content of the user message. *)
Definition build_userContent (x : Extracted) : M (list ContentPart) :=
  let userContent := initial_userContent x in
  items <- lift (iterate (attachments x)) ;;
  process_attachments items userContent.

(** Lines 89-95 and 128-138: the request sent to the provider. *)
Definition completion_request (userContent : list ContentPart)
    : CompletionRequest :=
  {| messages := [system_message]
                 ++ [{| role := "user";
                        content := content_parts userContent |}];
     model := "gpt-4o-mini";
     max_tokens := 1000 |}.

(** Line 140: [completion.choices[0]?.message?.content]. *)
Definition first_content (completion : ChatCompletion) : option string :=
  match choices completion with
  | [] => None
  | c :: _ =>
      match message c with
      | None => None
      | Some m => message_content m
      end
  end.

(** Lines 134-143: the completion call and the extraction of the reply. *)
Definition generate (userContent : list ContentPart) : M string :=
  let request := completion_request userContent in
  completion <- await (ECompletion request)
                  (fun tr => chat_completions_create w tr request) ;;
  match first_content completion with
  | None => throw (Error "Failed to generate AI response")
  | Some aiResponse =>
      if String.eqb aiResponse ""
      then throw (Error "Failed to generate AI response")
      else ret aiResponse
  end.

(** Lines 147-152: the message handed to the mail client. *)
Definition compose (x : Extracted) (aiResponse : string) : M MessageData :=
  subject_text <- lift (ToString (Number_toString w) (subject x)) ;;
  ret {| md_from := FROM_EMAIL w;
         md_to := sender x;
         md_subject := ("Re: " ++ subject_text)%string;
         md_text := aiResponse;
         md_In_Reply_To := messageId x;
         md_References := messageId x |}.

(** Lines 73-131: everything before the completion call. *)
Definition before_generation (body : JsValue)
    : M (Extracted * list ContentPart) :=
  x <- extract body ;;
  validate x ;;
  userContent <- build_userContent x ;;
  ret (x, userContent).

(** Lines 73-143 and the evaluation of the arguments of line 146:
    everything the [try] block does before it calls the mail client. *)
Definition before_dispatch (body : JsValue) : M MessageData :=
  xu <- before_generation body ;;
  aiResponse <- generate (snd xu) ;;
  compose (fst xu) aiResponse.

(** Line 146: the awaited [mg.messages.create]. *)
Definition dispatch (data : MessageData) : M unit :=
  await (ESend (MAILGUN_DOMAIN w) data)
    (fun tr => messages_create w tr (MAILGUN_DOMAIN w) data).

(** The [try] block, lines 72-155. *)
Definition try_block (body : JsValue) : M unit :=
  data <- before_dispatch body ;;
  dispatch data.

(** The JSON answer of the route. *)
Inductive Response : Type :=
| json (code : N) (status_field : string) (message_field : string).

(** Lines 158-159. *)
Definition errorMessage (e : exn) : string :=
  match e with
  | Error m => m
  | SyntaxError m => m
  | TypeError why => TypeError_message w why
  | NonError => "An unknown error occurred"
  end.

Definition success : Response :=
  json 200 "success" "Response sent successfully".

Definition failure (e : exn) : Response :=
  json 500 "error" (errorMessage e).

(** The route [POST /api/incoming-email], lines 71-162: the answer and
    the network calls made while computing it. *)
Definition incoming_email (body : JsValue) : Response * trace :=
  match try_block body [] with
  | (inr _, tr) => (success, tr)
  | (inl e, tr) => (failure e, tr)
  end.
End Handler.

(** ** The typed view of a payload *)

(** An element of [MailgunWebhookBody.attachments], lines 49-54. *)
Record AttachmentRef : Type := {
  url : string;
  content_type : string;
  name : string;
  size : spec_float
}.

(** The object an attachment is once the payload is parsed. *)
Definition attachment_object (a : AttachmentRef) : JsValue :=
  VObj [("url", VStr (url a)); ("content-type", VStr (content_type a));
        ("name", VStr (name a)); ("size", VNum (size a))].

(** The test of line 114 on a typed attachment. *)
Definition is_image (a : AttachmentRef) : bool :=
  String.prefix "image/" (content_type a).

(** The part pushed at lines 118-123 for an attachment whose content is
    [bytes]. *)
Definition image_part (a : AttachmentRef) (bytes : list byte) : ContentPart :=
  image_url_part
    ("data:" ++ content_type a ++ ";base64," ++ base64 bytes)%string.

(** ** Reading a trace *)

Definition fetches (tr : trace) : list JsValue :=
  flat_map (fun e => match e with EFetch u => [u] | _ => [] end) tr.

Definition completions (tr : trace) : list CompletionRequest :=
  flat_map (fun e => match e with ECompletion r => [r] | _ => [] end) tr.

Definition sends (tr : trace) : list MessageData :=
  flat_map (fun e => match e with ESend _ d => [d] | _ => [] end) tr.

Definition is_fetch (e : event) : Prop :=
  match e with EFetch _ => True | _ => False end.

(** The image parts of a request's user message. *)
Definition image_parts (parts : list ContentPart) : list string :=
  flat_map (fun p => match p with image_url_part u => [u] | _ => [] end) parts.

(** The names the specification gives to the handler's errors. *)
Definition ValidationError : exn :=
  Error "No email content or attachments found".

Definition GenerationError : exn :=
  Error "Failed to generate AI response".

Definition DownloadError (code : N) (text : string) : exn :=
  Error ("Failed to download attachment: " ++ decimal code ++ " " ++ text)%string.

(** ** Sample worlds and payloads *)

Module Samples.

Definition dq : string := String (ascii_of_nat 34) EmptyString.

(** The JSON text of one string-valued member. *)
Definition member (k v : string) : string :=
  (dq ++ k ++ dq ++ ":" ++ dq ++ v ++ dq)%string.

Definition pdf : AttachmentRef :=
  {| url := "https://files.example/report.pdf";
     content_type := "application/pdf";
     name := "report.pdf";
     size := number_of_N 1 |}.

Definition cat : AttachmentRef :=
  {| url := "https://files.example/cat.png";
     content_type := "image/png";
     name := "cat.png";
     size := number_of_N 3 |}.

Definition gone : AttachmentRef :=
  {| url := "https://files.example/gone.png";
     content_type := "image/png";
     name := "gone.png";
     size := number_of_N 3 |}.

Definition dog : AttachmentRef :=
  {| url := "https://files.example/dog.jpg";
     content_type := "image/jpeg";
     name := "dog.jpg";
     size := number_of_N 2 |}.

(** The JSON text of an attachment whose size is written [n]. *)
Definition attachment_text (a : AttachmentRef) (n : string) : string :=
  ("{" ++ member "url" (url a) ++ ","
       ++ member "content-type" (content_type a) ++ ","
       ++ member "name" (name a) ++ ","
       ++ dq ++ "size" ++ dq ++ ":" ++ n ++ "}")%string.

Definition pdf_only_text : string :=
  ("[" ++ attachment_text pdf "1" ++ "]")%string.

Definition broken_text : string :=
  ("[" ++ attachment_text cat "3" ++ "," ++ attachment_text gone "3" ++ ","
       ++ attachment_text dog "2" ++ "]")%string.

(** An attachment that declares no content type. *)
Definition untyped_text : string :=
  ("[{" ++ member "url" "https://files.example/blob" ++ "}]")%string.

Definition untyped_object : JsValue :=
  VObj [("url", VStr "https://files.example/blob")].

(** [JSON.parse] on the texts above; any other text is taken not to be
    JSON. *)
Definition parse_table : list (string * JsValue) :=
  [("[]", VArr []);
   (pdf_only_text, VArr [attachment_object pdf]);
   (broken_text, VArr (map attachment_object [cat; gone; dog]));
   (untyped_text, VArr [untyped_object])].

Definition parse (s : string) : result JsValue :=
  match assoc s parse_table with
  | Some v => inr v
  | None => inl (SyntaxError "Unexpected token in JSON")
  end.

(** A stand-in for the rendering of a double.  It agrees with JavaScript
    on zero, the infinities, NaN and the integers up to 2^53 written with
    exponent 0, the only numbers the samples hold; on every other double
    (a fraction, a larger integer) it does not, and no run below renders
    one. *)
Definition render_number (x : spec_float) : string :=
  match x with
  | S754_zero _ => "0"
  | S754_nan => "NaN"
  | S754_infinity false => "Infinity"
  | S754_infinity true => "-Infinity"
  | S754_finite s m e =>
      ((if s then "-" else "")
         ++ decimal (Z.to_N (Z.pos m * 2 ^ e)))%string
  end.

Definition render_type_error (why : type_error) : string :=
  match why with
  | ReadOfNullish VNull p =>
      ("Cannot read properties of null (reading '" ++ p ++ "')")%string
  | ReadOfNullish _ p =>
      ("Cannot read properties of undefined (reading '" ++ p ++ "')")%string
  | NotAFunction p =>
      ("attachment.content-type." ++ p ++ " is not a function")%string
  | NotIterable => "attachments is not iterable"
  | NoPrimitiveValue => "Cannot convert object to primitive value"
  end.

Definition png_bytes : list byte := [x89; x50; x4e].
Definition jpg_bytes : list byte := [xff; xd8].

(** The file server: two images are served, one is gone, anything else
    is not a URL. *)
Definition serve (u : JsValue) : result FetchResponse :=
  match u with
  | VStr s =>
      if String.eqb s (url cat)
      then inr {| ok := true; status := 200; statusText := "OK";
                  arrayBuffer := inr png_bytes |}
      else if String.eqb s (url dog)
      then inr {| ok := true; status := 200; statusText := "OK";
                  arrayBuffer := inr jpg_bytes |}
      else inr {| ok := false; status := 404; statusText := "Not Found";
                  arrayBuffer := inr [] |}
  | _ => inl (Error "Failed to parse URL")
  end.

Definition one_choice (s : option string) : ChatCompletion :=
  {| choices := [{| message := Some {| message_content := s |} |}] |}.

(** A world whose completion provider answers [answer] and whose mail
    provider answers [mail]. *)
Definition world (answer : result ChatCompletion) (mail : result unit)
    : World :=
  {| JSON_parse := parse;
     Number_toString := render_number;
     TypeError_message := render_type_error;
     MAILGUN_DOMAIN := "mg.example.com";
     FROM_EMAIL := "assistant@mg.example.com";
     fetch := fun _ u => serve u;
     chat_completions_create := fun _ _ => answer;
     messages_create := fun _ _ _ => mail |}.

Definition friendly : World := world (inr (one_choice (Some "Four."))) (inr tt).

(** A url-encoded webhook body. *)
Definition payload (sender subject text id : string) (atts : option string)
    : JsValue :=
  VObj ([("sender", VStr sender); ("subject", VStr subject);
         ("stripped-text", VStr text); ("Message-Id", VStr id)]
        ++ match atts with
           | Some s => [("attachments", VStr s)]
           | None => []
           end).

(** An empty text and one PDF attachment. *)
Definition pdf_only_mail : JsValue :=
  payload "a@x.com" "Hi" "" "<1@x.com>" (Some pdf_only_text).

(** A text and one attachment that declares no content type. *)
Definition untyped_mail : JsValue :=
  payload "a@x.com" "Hi" "See the file" "<1@x.com>" (Some untyped_text).

(** A payload with a subject and a text, and no sender. *)
Definition senderless : list (string * JsValue) :=
  [("subject", VStr "Hi"); ("stripped-text", VStr "hello")].

End Samples.

(** The image parts of the messages of a request. *)
Definition request_images (request : CompletionRequest) : list string :=
  flat_map (fun m => match content m with
                     | content_parts parts => image_parts parts
                     | content_string _ => []
                     end) (messages request).

(** ** Three sentences of the specification, as it states them *)

(** "A record with empty text and no attachment, or only non-image
    attachments, causes a validation error", before any completion call. *)
Definition rejects_contentless (w : World) (body : JsValue) : Prop :=
  forall x atts,
    extract w body [] = (inr x, []) ->
    ToBoolean (strippedText x) = false ->
    attachments x = VArr (map attachment_object atts) ->
    forallb (fun a => negb (is_image a)) atts = true ->
    exists tr,
      incoming_email w body = (failure w ValidationError, tr) /\
      completions tr = [].

(** An attachment that is passed over: no part, no call, no exception. *)
Definition skipped (w : World) (attachment : JsValue) : Prop :=
  forall uc tr, process_attachment w attachment uc tr = (inr uc, tr).

(** "An attachment whose content type is missing is skipped, never
    throws." *)
Definition skips_untyped (w : World) (attachment : JsValue) : Prop :=
  get attachment "content-type" = inr VUndefined -> skipped w attachment.

(** "A payload without the required sender fails with a validation error",
    before any external call. *)
Definition rejects_without_sender (w : World)
    (props : list (string * JsValue)) : Prop :=
  assoc "sender" props = None ->
  incoming_email w (VObj props) = (failure w ValidationError, []).

(** ** More sample worlds *)

Module MoreSamples.

Definition cat_only_text : string :=
  ("[" ++ Samples.attachment_text Samples.cat "3" ++ "]")%string.

Definition mixed_text : string :=
  ("[" ++ Samples.attachment_text Samples.pdf "1" ++ ","
       ++ Samples.attachment_text Samples.cat "3" ++ ","
       ++ Samples.attachment_text Samples.dog "2" ++ "]")%string.

(** The same image under another name and with another size. *)
Definition renamed_cat : AttachmentRef :=
  {| url := "https://files.example/cat.png";
     content_type := "image/png";
     name := "IMG_0001.PNG";
     size := number_of_N 48213 |}.

Definition renamed_text : string :=
  ("[" ++ Samples.attachment_text renamed_cat "48213" ++ "]")%string.

(** A JSON text that is an object, not an array. *)
Definition object_text : string :=
  ("{" ++ Samples.member "url" "https://files.example/cat.png" ++ "}")%string.

(** [JSON.parse] on the texts of the samples; any other text is taken not
    to be JSON. *)
Definition parse (s : string) : result JsValue :=
  match assoc s
          ([(cat_only_text, VArr [attachment_object Samples.cat]);
            (renamed_text, VArr [attachment_object renamed_cat]);
            (mixed_text,
             VArr (map attachment_object
                     [Samples.pdf; Samples.cat; Samples.dog]));
            (object_text,
             VObj [("url", VStr "https://files.example/cat.png")])]
           ++ Samples.parse_table) with
  | Some v => inr v
  | None => inl (SyntaxError "Unexpected token in JSON")
  end.

(** A world with the file server [net], whose completion provider answers
    [answer] and whose mail provider answers [mail]. *)
Definition world (net : JsValue -> result FetchResponse)
    (answer : result ChatCompletion) (mail : result unit) : World :=
  {| JSON_parse := parse;
     Number_toString := Samples.render_number;
     TypeError_message := Samples.render_type_error;
     MAILGUN_DOMAIN := "mg.example.com";
     FROM_EMAIL := "assistant@mg.example.com";
     fetch := fun _ u => net u;
     chat_completions_create := fun _ _ => answer;
     messages_create := fun _ _ _ => mail |}.

Definition friendly : World :=
  world Samples.serve (inr (Samples.one_choice (Some "A cat."))) (inr tt).

(** No file server can be reached. *)
Definition offline (u : JsValue) : result FetchResponse :=
  inl (Error "fetch failed").

(** The file server answers, and the connection breaks while the body is
    read. *)
Definition truncated (u : JsValue) : result FetchResponse :=
  inr {| ok := true; status := 200; statusText := "OK";
         arrayBuffer := inl (Error "terminated") |}.

End MoreSamples.

(** ** The two earlier variants of the route *)

(** The monad of a [try] block over any type of recorded calls. *)
Definition Run (E A : Type) : Type := list E -> result A * list E.

Definition run_ret {E A : Type} (a : A) : Run E A := fun h => (inr a, h).

Definition run_throw {E A : Type} (e : exn) : Run E A := fun h => (inl e, h).

Definition run_bind {E A B : Type} (m : Run E A) (k : A -> Run E B)
    : Run E B :=
  fun h =>
    match m h with
    | (inl e, h') => (inl e, h')
    | (inr a, h') => k a h'
    end.

Definition run_lift {E A : Type} (r : result A) : Run E A := fun h => (r, h).

Definition run_await {E A : Type} (ev : E) (answer : list E -> result A)
    : Run E A :=
  fun h => (answer h, h ++ [ev]).

Declare Scope run_scope.
Delimit Scope run_scope with run.
Notation "x <- m ;; k" := (run_bind m (fun x => k))
  (at level 61, m at next level, right associativity) : run_scope.
Notation "m ;; k" := (run_bind m (fun _ => k))
  (at level 61, right associativity) : run_scope.

(** The variant of [src/unnamed/part_000]: an Express route that answers
    the text of a mail, takes no attachment, and threads its reply. *)
Module TextOnly.
Local Open Scope run_scope.

Record ChatMessage : Type := {
  role : string;
  content : JsValue
}.

(** The argument of [openai.chat.completions.create], lines 68-81. *)
Record Request : Type := {
  messages : list ChatMessage;
  model : string
}.

Inductive call : Type :=
| Completion (request : Request)
| Send (domain : string) (data : MessageData).

Record Services : Type := {
  Number_toString : spec_float -> string;
  TypeError_message : type_error -> string;
  MAILGUN_DOMAIN : string;
  FROM_EMAIL : string;
  create : list call -> Request -> result ChatCompletion;
  send : list call -> string -> MessageData -> result unit
}.

Definition sent (h : list call) : list MessageData :=
  flat_map (fun c => match c with Send _ d => [d] | _ => [] end) h.

Definition requested (h : list call) : list Request :=
  flat_map (fun c => match c with Completion r => [r] | _ => [] end) h.

(** Lines 69-80. *)
Definition request (strippedText : JsValue) : Request :=
  {| messages :=
       [{| role := "system";
           content :=
             VStr "You are a helpful email assistant. Provide clear and concise responses." |};
        {| role := "user"; content := strippedText |}];
     model := "gpt-4o-mini" |}.

Section Handler.
Variable sv : Services.

(** The [try] block, lines 54-98. *)
Definition try_block (body : JsValue) : Run call unit :=
  sender <- run_lift (get body "sender") ;;
  subject <- run_lift (get body "subject") ;;
  strippedText <- run_lift (get body "stripped-text") ;;
  messageId <- run_lift (get body "Message-Id") ;;
  (if negb (ToBoolean strippedText)
   then run_throw (Error "No email content found")
   else run_ret tt) ;;
  completion <- run_await (Completion (request strippedText))
                  (fun h => create sv h (request strippedText)) ;;
  aiResponse <-
    match first_content completion with
    | None => run_throw (Error "Failed to generate AI response")
    | Some aiResponse =>
        if String.eqb aiResponse ""
        then run_throw (Error "Failed to generate AI response")
        else run_ret aiResponse
    end ;;
  subject_text <- run_lift (ToString (Number_toString sv) subject) ;;
  let data :=
    {| md_from := FROM_EMAIL sv;
       md_to := sender;
       md_subject := ("Re: " ++ subject_text)%string;
       md_text := aiResponse;
       md_In_Reply_To := messageId;
       md_References := messageId |} in
  run_await (Send (MAILGUN_DOMAIN sv) data)
    (fun h => send sv h (MAILGUN_DOMAIN sv) data).

(** Lines 101-102. *)
Definition errorMessage (e : exn) : string :=
  match e with
  | Error m => m
  | SyntaxError m => m
  | TypeError why => TypeError_message sv why
  | NonError => "An unknown error occurred"
  end.

(** The route, lines 53-105. *)
Definition incoming_email (body : JsValue) : Response * list call :=
  match try_block body [] with
  | (inr _, h) => (success, h)
  | (inl e, h) => (json 500 "error" (errorMessage e), h)
  end.
End Handler.

(** Sample services: the provider answers [answer], the mail client
    [mail]. *)
Definition services (answer : result ChatCompletion) (mail : result unit)
    : Services :=
  {| Number_toString := Samples.render_number;
     TypeError_message := Samples.render_type_error;
     MAILGUN_DOMAIN := "mg.example.com";
     FROM_EMAIL := "assistant@mg.example.com";
     create := fun _ _ => answer;
     send := fun _ _ _ => mail |}.

End TextOnly.

(** The variant of [src/unnamed/part_001]: a Hono route on the edge
    runtime that reads a form body and quotes the original mail under its
    reply. *)
Module Quoted.
Local Open Scope run_scope.

(** A field of a parsed form body is a string or an uploaded file (a
    list only under a name that ends in "[]", and the route reads no
    such name). *)
Inductive FormValue : Type :=
| FormText (s : string)
| FormFile.

(** What reading a field of the body gives; [None] is [undefined]. *)
Definition Field : Type := option FormValue.

Definition truthy (v : Field) : bool :=
  match v with
  | None => false
  | Some (FormText s) => negb (String.eqb s "")
  | Some FormFile => true
  end.

(** [ToString] as the template literals of lines 88-89 apply it. *)
Definition to_string (v : Field) : string :=
  match v with
  | None => "undefined"
  | Some (FormText s) => s
  | Some FormFile => "[object File]"
  end.

Inductive Content : Type :=
| literal (s : string)
| field (v : Field).

Record ChatMessage : Type := {
  role : string;
  content : Content
}.

Record Request : Type := {
  messages : list ChatMessage;
  model : string
}.

(** The second argument of [mg.messages.create], lines 85-90. *)
Record Mail : Type := {
  mail_from : string;
  mail_to : Field;
  mail_subject : string;
  mail_text : string
}.

Inductive call : Type :=
| Completion (request : Request)
| Send (domain : string) (mail : Mail).

Record Services : Type := {
  TypeError_message : type_error -> string;
  MAILGUN_DOMAIN : string;
  FROM_EMAIL : string;
  create : list call -> Request -> result ChatCompletion;
  send : list call -> string -> Mail -> result unit
}.

Definition sent (h : list call) : list Mail :=
  flat_map (fun c => match c with Send _ m => [m] | _ => [] end) h.

Definition nl : string := String (ascii_of_nat 10) EmptyString.

(** Lines 65-76. *)
Definition request (strippedText : Field) : Request :=
  {| messages :=
       [{| role := "system";
           content :=
             literal "You are a helpful email assistant. Provide clear and concise responses." |};
        {| role := "user"; content := field strippedText |}];
     model := "gpt-4o-mini" |}.

(** The text of the mail, line 89. *)
Definition quote (aiResponse : string) (sender subject strippedText : Field)
    : string :=
  (aiResponse ++ nl ++ nl ++ "------ Original Message ------" ++ nl
     ++ "From: " ++ to_string sender ++ nl
     ++ "Subject: " ++ to_string subject ++ nl ++ nl
     ++ to_string strippedText)%string.

Section Handler.
Variable sv : Services.

(** The [try] block, lines 51-92; [parsed] is what the awaited
    [c.req.parseBody()] gives, a rejection or the fields of the form. *)
Definition try_block (parsed : result (list (string * FormValue)))
    : Run call unit :=
  body <- run_lift parsed ;;
  let sender := assoc "sender" body in
  let subject := assoc "subject" body in
  let strippedText := assoc "stripped-text" body in
  (if negb (truthy strippedText)
   then run_throw (Error "No email content found")
   else run_ret tt) ;;
  completion <- run_await (Completion (request strippedText))
                  (fun h => create sv h (request strippedText)) ;;
  aiResponse <-
    match first_content completion with
    | None => run_throw (Error "Failed to generate AI response")
    | Some aiResponse =>
        if String.eqb aiResponse ""
        then run_throw (Error "Failed to generate AI response")
        else run_ret aiResponse
    end ;;
  let mail :=
    {| mail_from := FROM_EMAIL sv;
       mail_to := sender;
       mail_subject := ("Re: " ++ to_string subject)%string;
       mail_text := quote aiResponse sender subject strippedText |} in
  run_await (Send (MAILGUN_DOMAIN sv) mail)
    (fun h => send sv h (MAILGUN_DOMAIN sv) mail).

(** Lines 95-96. *)
Definition errorMessage (e : exn) : string :=
  match e with
  | Error m => m
  | SyntaxError m => m
  | TypeError why => TypeError_message sv why
  | NonError => "An unknown error occurred"
  end.

(** The route, lines 50-99. *)
Definition incoming_email (parsed : result (list (string * FormValue)))
    : Response * list call :=
  match try_block parsed [] with
  | (inr _, h) => (success, h)
  | (inl e, h) => (json 500 "error" (errorMessage e), h)
  end.
End Handler.

(** Sample services: the provider answers [answer], the mail client
    [mail]. *)
Definition services (answer : result ChatCompletion) (mail : result unit)
    : Services :=
  {| TypeError_message := Samples.render_type_error;
     MAILGUN_DOMAIN := "mg.example.com";
     FROM_EMAIL := "assistant@mg.example.com";
     create := fun _ _ => answer;
     send := fun _ _ _ => mail |}.

End Quoted.

(** ** How computations extend the trace *)

(** [emits P m]: whatever the history, [m] appends to it, and only events
    that satisfy [P]. *)
Definition emits {A : Type} (P : event -> Prop) (m : M A) : Prop :=
  forall tr, exists evs, snd (m tr) = tr ++ evs /\ Forall P evs.

Definition not_send (e : event) : Prop :=
  match e with ESend _ _ => False | _ => True end.

(** [pure m]: [m] makes no network call and does not look at the history. *)
Definition pure {A : Type} (m : M A) : Prop :=
  exists r, forall tr, m tr = (r, tr).

Section Emits.
Context {A B : Type} (P : event -> Prop).

Lemma emits_ret (a : A) : emits P (ret a).
Proof. intro tr. exists []. simpl. now rewrite app_nil_r. Qed.

Lemma emits_throw (e : exn) : emits P (@throw A e).
Proof. intro tr. exists []. simpl. now rewrite app_nil_r. Qed.

Lemma emits_lift (r : result A) : emits P (lift r).
Proof. intro tr. exists []. simpl. now rewrite app_nil_r. Qed.

Lemma emits_await (ev : event) (answer : trace -> result A) :
  P ev -> emits P (await ev answer).
Proof. intros H tr. exists [ev]. simpl. auto. Qed.

Lemma emits_bind (m : M A) (k : A -> M B) :
  emits P m -> (forall a, emits P (k a)) -> emits P (bind m k).
Proof.
  intros Hm Hk tr. unfold bind.
  destruct (Hm tr) as (evs & Etr & Hevs).
  destruct (m tr) as [[e | a] tr1]; simpl in Etr; subst tr1.
  - exists evs. auto.
  - destruct (Hk a (tr ++ evs)) as (evs' & Etr' & Hevs').
    exists (evs ++ evs'). rewrite Etr', app_assoc. split; auto.
    apply Forall_app; auto.
Qed.

Lemma emits_weaken (Q : event -> Prop) (m : M A) :
  (forall e, Q e -> P e) -> emits Q m -> emits P m.
Proof.
  intros HQ Hm tr. destruct (Hm tr) as (evs & Etr & Hevs).
  exists evs. split; auto. eapply Forall_impl; eauto.
Qed.
End Emits.

Section Pure.
Context {A B : Type}.

Lemma pure_ret (a : A) : pure (ret a).
Proof. now exists (inr a). Qed.

Lemma pure_throw (e : exn) : pure (@throw A e).
Proof. now exists (inl e). Qed.

Lemma pure_lift (r : result A) : pure (lift r).
Proof. now exists r. Qed.

Lemma pure_bind (m : M A) (k : A -> M B) :
  pure m -> (forall a, pure (k a)) -> pure (bind m k).
Proof.
  intros [r Hm] Hk. unfold bind. destruct r as [e | a].
  - exists (inl e). intro tr. now rewrite Hm.
  - destruct (Hk a) as [r' Hk']. exists r'. intro tr. now rewrite Hm.
Qed.

Lemma pure_run (m : M A) (r : result A) (tr0 tr0' tr : trace) :
  pure m -> m tr0 = (r, tr0') -> m tr = (r, tr).
Proof.
  intros [r' H] E. rewrite H in E. injection E as -> _. apply H.
Qed.

Lemma pure_emits (P : event -> Prop) (m : M A) : pure m -> emits P m.
Proof.
  intros [r H] tr. exists []. rewrite H, app_nil_r. auto.
Qed.
End Pure.

Lemma sends_app (a b : trace) : sends (a ++ b) = sends a ++ sends b.
Proof. apply flat_map_app. Qed.

Lemma completions_app (a b : trace) :
  completions (a ++ b) = completions a ++ completions b.
Proof. apply flat_map_app. Qed.

Lemma not_send_sends (evs : trace) : Forall not_send evs -> sends evs = [].
Proof.
  induction 1 as [| e evs He _ IH]; [reflexivity |].
  destruct e; simpl in *; auto; contradiction.
Qed.

Lemma is_fetch_completions (evs : trace) :
  Forall is_fetch evs -> completions evs = [].
Proof.
  induction 1 as [| e evs He _ IH]; [reflexivity |].
  destruct e; simpl in *; auto; contradiction.
Qed.

Lemma is_fetch_not_send (e : event) : is_fetch e -> not_send e.
Proof. destruct e; simpl; auto. Qed.

Lemma is_fetch_sends (evs : trace) : Forall is_fetch evs -> sends evs = [].
Proof.
  intro H. apply not_send_sends.
  eapply Forall_impl; [apply is_fetch_not_send | exact H].
Qed.

Ltac pure_step :=
  first
    [ apply pure_ret
    | apply pure_throw
    | apply pure_lift
    | apply pure_bind; [| intro]
    | match goal with
      | |- pure (if ?b then _ else _) => destruct b
      | |- pure (match ?v with _ => _ end) => destruct v
      end ].

(** The steps of a proof that a computation emits only [P]-events. *)
Ltac emits_step :=
  first
    [ apply emits_ret
    | apply emits_throw
    | apply emits_lift
    | apply emits_await; simpl; exact I
    | apply emits_bind; [| intro]
    | match goal with
      | |- emits _ (if ?b then _ else _) => destruct b
      | |- emits _ (match ?v with _ => _ end) => destruct v
      end ].

Section Phases.
Variable w : World.

Lemma extract_pure (body : JsValue) : pure (extract w body).
Proof. unfold extract. repeat pure_step. Qed.

Lemma validate_pure (x : Extracted) : pure (validate x).
Proof. unfold validate. repeat pure_step. Qed.

Lemma downloadAttachment_emits (u : JsValue) :
  emits is_fetch (downloadAttachment w u).
Proof. unfold downloadAttachment. repeat emits_step. Qed.

Lemma process_attachment_emits (v : JsValue) (uc : list ContentPart) :
  emits is_fetch (process_attachment w v uc).
Proof.
  unfold process_attachment.
  repeat first [apply downloadAttachment_emits | emits_step].
Qed.

Lemma process_attachments_emits (items : list JsValue) :
  forall uc, emits is_fetch (process_attachments w items uc).
Proof.
  induction items as [| v items IH]; intro uc; simpl.
  - apply emits_ret.
  - apply emits_bind; [apply process_attachment_emits | intro; apply IH].
Qed.

Lemma build_userContent_emits (x : Extracted) :
  emits is_fetch (build_userContent w x).
Proof.
  unfold build_userContent. apply emits_bind; [apply emits_lift |].
  intro. apply process_attachments_emits.
Qed.

Lemma before_generation_emits (body : JsValue) :
  emits is_fetch (before_generation w body).
Proof.
  unfold before_generation.
  apply emits_bind; [apply pure_emits, extract_pure |].
  intro x. apply emits_bind; [apply pure_emits, validate_pure |].
  intros _. apply emits_bind; [apply build_userContent_emits |].
  intro. apply emits_ret.
Qed.

Lemma generate_emits (uc : list ContentPart) :
  emits not_send (generate w uc).
Proof. unfold generate. repeat emits_step. Qed.

Lemma compose_pure (x : Extracted) (r : string) : pure (compose w x r).
Proof. unfold compose. repeat pure_step. Qed.

Lemma before_dispatch_emits (body : JsValue) :
  emits not_send (before_dispatch w body).
Proof.
  unfold before_dispatch.
  apply emits_bind;
    [eapply emits_weaken;
       [apply is_fetch_not_send | apply before_generation_emits] |].
  intro xu. apply emits_bind; [apply generate_emits |].
  intro r. apply pure_emits, compose_pure.
Qed.

(** The route's answer, from what happened before the dispatch. *)
Lemma incoming_email_failed (body : JsValue) (e : exn) (tr : trace) :
  before_dispatch w body [] = (inl e, tr) ->
  incoming_email w body = (failure w e, tr).
Proof.
  intro H. unfold incoming_email, try_block, bind. now rewrite H.
Qed.

Lemma incoming_email_dispatched (body : JsValue) (data : MessageData)
    (tr : trace) :
  before_dispatch w body [] = (inr data, tr) ->
  incoming_email w body =
    (match messages_create w tr (MAILGUN_DOMAIN w) data with
     | inr _ => success
     | inl e => failure w e
     end,
     tr ++ [ESend (MAILGUN_DOMAIN w) data]).
Proof.
  intro H. unfold incoming_email, try_block, bind. rewrite H.
  unfold dispatch, await.
  now destruct (messages_create w tr (MAILGUN_DOMAIN w) data).
Qed.

Lemma before_dispatch_sends (body : JsValue) (r : result MessageData)
    (tr : trace) :
  before_dispatch w body [] = (r, tr) -> sends tr = [].
Proof.
  intro H. destruct (before_dispatch_emits body []) as (evs & E & F).
  rewrite H in E. simpl in E. subst tr. now apply not_send_sends.
Qed.
End Phases.

(** ** Running the steps *)

Lemma bind_ok {A B : Type} (m : M A) (k : A -> M B) (a : A) (tr tr' : trace) :
  m tr = (inr a, tr') -> bind m k tr = k a tr'.
Proof. intro H. unfold bind. now rewrite H. Qed.

Lemma bind_failed {A B : Type} (m : M A) (k : A -> M B) (e : exn)
    (tr tr' : trace) :
  m tr = (inl e, tr') -> bind m k tr = (inl e, tr').
Proof. intro H. unfold bind. now rewrite H. Qed.

Lemma get_content_type (a : AttachmentRef) :
  get (attachment_object a) "content-type" = inr (VStr (content_type a)).
Proof. reflexivity. Qed.

Lemma get_url (a : AttachmentRef) :
  get (attachment_object a) "url" = inr (VStr (url a)).
Proof. reflexivity. Qed.

Lemma startsWith_image (a : AttachmentRef) :
  startsWith (VStr (content_type a)) "image/" = inr (is_image a).
Proof. reflexivity. Qed.

Section Loop.
Variable w : World.

(** An attachment whose content type is a string that does not start
    with "image/" is passed over. *)
Lemma process_attachment_other (v : JsValue) (ct : string)
    (uc : list ContentPart) (tr : trace) :
  get v "content-type" = inr (VStr ct) ->
  String.prefix "image/" ct = false ->
  process_attachment w v uc tr = (inr uc, tr).
Proof.
  intros Hget Hpre. unfold process_attachment, bind, lift.
  rewrite Hget. unfold startsWith. now rewrite Hpre.
Qed.

(** The download of an image that the server delivers. *)
Lemma downloadAttachment_ok (u : JsValue) (r : FetchResponse)
    (bytes : list byte) (tr : trace) :
  fetch w tr u = inr r -> ok r = true -> arrayBuffer r = inr bytes ->
  downloadAttachment w u tr = (inr bytes, tr ++ [EFetch u]).
Proof.
  intros Hf Hok Hb. unfold downloadAttachment, bind, await, lift.
  now rewrite Hf, Hok, Hb.
Qed.

(** The download of an image that the server refuses. *)
Lemma downloadAttachment_refused (u : JsValue) (r : FetchResponse)
    (tr : trace) :
  fetch w tr u = inr r -> ok r = false ->
  downloadAttachment w u tr =
    (inl (DownloadError (status r) (statusText r)), tr ++ [EFetch u]).
Proof.
  intros Hf Hok. unfold downloadAttachment, bind, await, throw.
  now rewrite Hf, Hok.
Qed.

Lemma process_attachment_image (a : AttachmentRef) (r : FetchResponse)
    (bytes : list byte) (uc : list ContentPart) (tr : trace) :
  is_image a = true ->
  fetch w tr (VStr (url a)) = inr r -> ok r = true ->
  arrayBuffer r = inr bytes ->
  process_attachment w (attachment_object a) uc tr =
    (inr (uc ++ [image_part a bytes]), tr ++ [EFetch (VStr (url a))]).
Proof.
  intros Hi Hf Hok Hb. unfold process_attachment.
  rewrite get_content_type. unfold bind at 1. unfold lift at 1.
  rewrite startsWith_image. unfold bind at 1. unfold lift at 1.
  rewrite Hi, get_url. unfold bind at 1. unfold lift at 1.
  rewrite (bind_ok _ _ _ _ _ (downloadAttachment_ok _ _ _ _ Hf Hok Hb)).
  reflexivity.
Qed.

Lemma process_attachment_refused (a : AttachmentRef) (r : FetchResponse)
    (uc : list ContentPart) (tr : trace) :
  is_image a = true ->
  fetch w tr (VStr (url a)) = inr r -> ok r = false ->
  process_attachment w (attachment_object a) uc tr =
    (inl (DownloadError (status r) (statusText r)),
     tr ++ [EFetch (VStr (url a))]).
Proof.
  intros Hi Hf Hok. unfold process_attachment.
  rewrite get_content_type. unfold bind at 1. unfold lift at 1.
  rewrite startsWith_image. unfold bind at 1. unfold lift at 1.
  rewrite Hi, get_url. unfold bind at 1. unfold lift at 1.
  now rewrite (bind_failed _ _ _ _ _ (downloadAttachment_refused _ _ _ Hf Hok)).
Qed.

(** The loop splits at any point of the list it visits. *)
Lemma process_attachments_app (pre post : list JsValue) :
  forall uc tr,
    process_attachments w (pre ++ post) uc tr =
      match process_attachments w pre uc tr with
      | (inl e, tr') => (inl e, tr')
      | (inr uc', tr') => process_attachments w post uc' tr'
      end.
Proof.
  induction pre as [| v pre IH]; intros uc tr; simpl; [reflexivity |].
  unfold bind.
  destruct (process_attachment w v uc tr) as [[e | uc1] tr1]; auto.
Qed.

(** The loop over typed attachments whose images are all delivered:
    one part and one fetch per image, in the order of the list. *)
Lemma process_attachments_typed (bytes : AttachmentRef -> list byte)
    (atts : list AttachmentRef) :
  (forall a h, In a atts -> is_image a = true ->
     exists r, fetch w h (VStr (url a)) = inr r /\ ok r = true /\
               arrayBuffer r = inr (bytes a)) ->
  forall uc tr,
    process_attachments w (map attachment_object atts) uc tr =
      (inr (uc ++ map (fun a => image_part a (bytes a))
                    (filter is_image atts)),
       tr ++ map (fun a => EFetch (VStr (url a))) (filter is_image atts)).
Proof.
  induction atts as [| a atts IH]; intros Hnet uc tr; simpl.
  - now rewrite !app_nil_r.
  - assert (Hrest : forall a' h, In a' atts -> is_image a' = true ->
              exists r, fetch w h (VStr (url a')) = inr r /\ ok r = true /\
                        arrayBuffer r = inr (bytes a'))
      by (intros; apply Hnet; simpl; auto).
    destruct (is_image a) eqn:Hi.
    + destruct (Hnet a tr (or_introl eq_refl) Hi) as (r & Hf & Hok & Hb).
      rewrite (bind_ok _ _ _ _ _
                 (process_attachment_image a r (bytes a) uc tr Hi Hf Hok Hb)).
      rewrite (IH Hrest). simpl. now rewrite <- !app_assoc.
    + rewrite (bind_ok _ _ _ _ _
                 (process_attachment_other _ _ uc tr
                    (get_content_type a) Hi)).
      now rewrite (IH Hrest).
Qed.

(** What the body of the loop can have done to a typed attachment when it
    returns. *)
Lemma process_attachment_typed_inv (a : AttachmentRef)
    (uc uc1 : list ContentPart) (tr tr1 : trace) :
  process_attachment w (attachment_object a) uc tr = (inr uc1, tr1) ->
  (is_image a = false /\ uc1 = uc /\ tr1 = tr) \/
  (is_image a = true /\
   exists bytes,
     uc1 = uc ++ [image_part a bytes] /\
     tr1 = tr ++ [EFetch (VStr (url a))]).
Proof.
  unfold process_attachment.
  rewrite get_content_type. unfold bind at 1. unfold lift at 1.
  rewrite startsWith_image. unfold bind at 1. unfold lift at 1.
  destruct (is_image a).
  - rewrite get_url. unfold bind at 1. unfold lift at 1.
    unfold downloadAttachment, bind, await, lift, throw, ret.
    destruct (fetch w tr (VStr (url a))) as [e | r]; [discriminate |].
    destruct (ok r); simpl; [| discriminate].
    destruct (arrayBuffer r) as [e | bytes]; [discriminate |].
    intro H. injection H as <- <-. right. split; [reflexivity |].
    now exists bytes.
  - unfold ret. intro H. injection H as <- <-. now left.
Qed.

(** When the loop over typed attachments returns, it has added one image
    part and made one fetch per image attachment, in the order of the
    list, and nothing else. *)
Lemma process_attachments_typed_inv (atts : list AttachmentRef) :
  forall uc tr parts tr',
    process_attachments w (map attachment_object atts) uc tr
      = (inr parts, tr') ->
    exists rest,
      parts = uc ++ rest /\
      Forall2 (fun a p => exists bytes, p = image_part a bytes)
        (filter is_image atts) rest /\
      tr' = tr ++ map (fun a => EFetch (VStr (url a))) (filter is_image atts).
Proof.
  induction atts as [| a atts IH]; intros uc tr parts tr'; simpl.
  - unfold ret. intro H. injection H as <- <-.
    exists []. now rewrite !app_nil_r.
  - unfold bind.
    destruct (process_attachment w (attachment_object a) uc tr)
      as [[e | uc1] tr1] eqn:E; [discriminate |].
    intro H. destruct (IH _ _ _ _ H) as (rest & -> & F & ->).
    destruct (process_attachment_typed_inv a uc uc1 tr tr1 E)
      as [(Hi & -> & ->) | (Hi & bytes & -> & ->)]; rewrite Hi.
    + now exists rest.
    + exists (image_part a bytes :: rest). rewrite <- !app_assoc.
      repeat split; auto. constructor; eauto.
Qed.
End Loop.

Section Pipeline.
Variable w : World.

Lemma validate_rejects (x : Extracted) (tr : trace) :
  ToBoolean (strippedText x) = false -> attachments x = VArr [] ->
  validate x tr = (inl ValidationError, tr).
Proof.
  intros Ht Ha. unfold validate, bind, lift, ret, throw.
  now rewrite Ht, Ha.
Qed.

Lemma validate_accepts_text (x : Extracted) (tr : trace) :
  ToBoolean (strippedText x) = true -> validate x tr = (inr tt, tr).
Proof.
  intros Ht. unfold validate, bind, lift, ret. now rewrite Ht.
Qed.

Lemma validate_accepts_attachments (x : Extracted) (v : JsValue)
    (l : list JsValue) (tr : trace) :
  attachments x = VArr (v :: l) -> validate x tr = (inr tt, tr).
Proof.
  intros Ha. unfold validate, bind, lift, ret.
  destruct (ToBoolean (strippedText x)); [reflexivity |].
  now rewrite Ha.
Qed.

(** The completion call and the extraction of the reply. *)
Lemma generate_run (uc : list ContentPart) (tr : trace) :
  generate w uc tr =
    (match chat_completions_create w tr (completion_request uc) with
     | inl e => inl e
     | inr completion =>
         match first_content completion with
         | None => inl GenerationError
         | Some reply =>
             if String.eqb reply "" then inl GenerationError else inr reply
         end
     end,
     tr ++ [ECompletion (completion_request uc)]).
Proof.
  unfold generate, bind, await, throw, ret.
  destruct (chat_completions_create w tr (completion_request uc))
    as [e | completion]; [reflexivity |].
  destruct (first_content completion) as [reply |]; [| reflexivity].
  now destruct (String.eqb reply "").
Qed.

Lemma compose_run (x : Extracted) (reply : string) (tr : trace) :
  compose w x reply tr =
    (match ToString (Number_toString w) (subject x) with
     | inl e => inl e
     | inr s =>
         inr {| md_from := FROM_EMAIL w;
                md_to := sender x;
                md_subject := ("Re: " ++ s)%string;
                md_text := reply;
                md_In_Reply_To := messageId x;
                md_References := messageId x |}
     end, tr).
Proof.
  unfold compose, bind, lift, ret.
  now destruct (ToString (Number_toString w) (subject x)).
Qed.

(** What precedes the completion call, once the payload is extracted. *)
Lemma before_generation_run (body : JsValue) (x : Extracted) :
  extract w body [] = (inr x, []) ->
  before_generation w body [] =
    match validate x [] with
    | (inl e, _) => (inl e, [])
    | (inr _, _) =>
        match build_userContent w x [] with
        | (inl e, tr) => (inl e, tr)
        | (inr uc, tr) => (inr (x, uc), tr)
        end
    end.
Proof.
  intro Hx. unfold before_generation.
  rewrite (bind_ok _ _ _ _ _ Hx). unfold bind at 1.
  destruct (validate_pure x) as [r Hr]. rewrite Hr.
  destruct r as [e | []]; [reflexivity |].
  unfold bind, ret.
  now destruct (build_userContent w x []) as [[e | uc] tr].
Qed.

Lemma before_generation_extracted (body : JsValue) (x : Extracted)
    (uc : list ContentPart) (tr : trace) :
  before_generation w body [] = (inr (x, uc), tr) ->
  extract w body [] = (inr x, []).
Proof.
  intro H. destruct (extract_pure w body) as [r Hr].
  rewrite Hr. unfold before_generation, bind in H. rewrite Hr in H.
  destruct r as [e | x0]; [discriminate |].
  destruct (validate x0 []) as [[e | []] tr0]; [discriminate |].
  destruct (build_userContent w x0 tr0) as [[e | uc0] tr1];
    [discriminate |].
  unfold ret in H. now injection H as -> _ _.
Qed.

Lemma before_generation_fetches (body : JsValue)
    (r : result (Extracted * list ContentPart)) (tr : trace) :
  before_generation w body [] = (r, tr) -> Forall is_fetch tr.
Proof.
  intro H. destruct (before_generation_emits w body []) as (evs & E & F).
  rewrite H in E. simpl in E. now subst tr.
Qed.

(** What precedes the dispatch, from what precedes the completion call. *)
Lemma before_dispatch_run (body : JsValue) :
  before_dispatch w body [] =
    match before_generation w body [] with
    | (inl e, tr) => (inl e, tr)
    | (inr (x, uc), tr) =>
        match fst (generate w uc tr) with
        | inl e => (inl e, tr ++ [ECompletion (completion_request uc)])
        | inr reply =>
            compose w x reply (tr ++ [ECompletion (completion_request uc)])
        end
    end.
Proof.
  unfold before_dispatch, bind.
  destruct (before_generation w body []) as [[e | [x uc]] tr];
    [reflexivity |].
  simpl fst. simpl snd. rewrite generate_run. simpl fst.
  destruct (chat_completions_create w tr (completion_request uc))
    as [e | completion]; [reflexivity |].
  destruct (first_content completion) as [reply |]; [| reflexivity].
  now destruct (String.eqb reply "").
Qed.

(** Every message the route sends was composed from the extracted
    payload and a non-empty reply of the provider's first choice. *)
Lemma sent_message (body : JsValue) (data : MessageData) :
  In data (sends (snd (incoming_email w body))) ->
  exists x uc tr completion reply,
    extract w body [] = (inr x, []) /\
    before_generation w body [] = (inr (x, uc), tr) /\
    chat_completions_create w tr (completion_request uc) = inr completion /\
    first_content completion = Some reply /\ reply <> ""%string /\
    compose w x reply (tr ++ [ECompletion (completion_request uc)]) =
      (inr data, tr ++ [ECompletion (completion_request uc)]).
Proof.
  intros Hin.
  destruct (before_dispatch w body []) as [[e | data'] pre] eqn:E.
  - rewrite (incoming_email_failed w body e pre E) in Hin. simpl in Hin.
    rewrite (before_dispatch_sends w body _ _ E) in Hin. destruct Hin.
  - rewrite (incoming_email_dispatched w body data' pre E) in Hin.
    simpl in Hin. rewrite sends_app in Hin.
    rewrite (before_dispatch_sends w body _ _ E) in Hin. simpl in Hin.
    destruct Hin as [<- | []].
    rewrite before_dispatch_run in E.
    destruct (before_generation w body []) as [[e | [x uc]] tr] eqn:G;
      [discriminate |].
    pose proof (before_generation_extracted _ _ _ _ G) as Hx.
    rewrite generate_run in E. simpl fst in E.
    destruct (chat_completions_create w tr (completion_request uc))
      as [e | completion] eqn:C; [discriminate |].
    destruct (first_content completion) as [reply |] eqn:F;
      [| discriminate].
    destruct (String.eqb reply "") eqn:R; [discriminate |].
    exists x, uc, tr, completion, reply. repeat split; auto.
    + intros ->. discriminate.
    + destruct (compose_pure w x reply) as [r Hr].
      rewrite Hr in E |- *. now injection E as -> _.
Qed.

Lemma incoming_email_not_generated (body : JsValue) (e : exn) (tr : trace) :
  before_generation w body [] = (inl e, tr) ->
  incoming_email w body = (failure w e, tr).
Proof.
  intro H. apply incoming_email_failed.
  now rewrite before_dispatch_run, H.
Qed.

(** Once the user content is built the provider is called, and the only
    call that may follow is the dispatch. *)
Lemma incoming_email_generated (body : JsValue) (x : Extracted)
    (uc : list ContentPart) (tr : trace) :
  before_generation w body [] = (inr (x, uc), tr) ->
  exists resp rest,
    incoming_email w body =
      (resp, tr ++ ECompletion (completion_request uc) :: rest) /\
    (rest = [] \/ exists data, rest = [ESend (MAILGUN_DOMAIN w) data]).
Proof.
  intro H. pose proof (before_dispatch_run body) as E. rewrite H in E.
  destruct (fst (generate w uc tr)) as [e | reply].
  - rewrite (incoming_email_failed w body _ _ E).
    exists (failure w e), []. split; auto.
  - destruct (compose_pure w x reply) as [r Hr]. rewrite Hr in E.
    destruct r as [e | data].
    + rewrite (incoming_email_failed w body _ _ E).
      exists (failure w e), []. split; auto.
    + rewrite (incoming_email_dispatched w body _ _ E).
      eexists. exists [ESend (MAILGUN_DOMAIN w) data].
      rewrite <- app_assoc. simpl. split; eauto.
Qed.
End Pipeline.

(** ** What the extraction gives *)

Lemma no_image_filter (atts : list AttachmentRef) :
  forallb (fun a => negb (is_image a)) atts = true ->
  filter is_image atts = [].
Proof.
  induction atts as [| a atts IH]; simpl; [reflexivity |].
  intro H. apply andb_true_iff in H as [Ha Hr].
  destruct (is_image a); [discriminate | auto].
Qed.

Lemma get_defined (base : JsValue) (k k' : string) (v : JsValue) :
  get base k = inr v -> exists v', get base k' = inr v'.
Proof.
  destruct base; simpl; try discriminate; intros _; eauto.
  - destruct (String.eqb k' "length"); eauto.
  - destruct (String.eqb k' "length"); eauto.
  - destruct (assoc k' props); eauto.
Qed.

Lemma extract_fields (w : World) (body : JsValue) (x : Extracted) :
  extract w body [] = (inr x, []) ->
  get body "sender" = inr (sender x) /\
  get body "subject" = inr (subject x) /\
  get body "stripped-text" = inr (strippedText x) /\
  get body "Message-Id" = inr (messageId x) /\
  exists raw,
    get body "attachments" = inr raw /\
    parse_attachments w raw = inr (attachments x).
Proof.
  unfold extract, bind, lift, ret.
  destruct (get body "sender") as [e | v1]; [discriminate |].
  destruct (get body "subject") as [e | v2]; [discriminate |].
  destruct (get body "stripped-text") as [e | v3]; [discriminate |].
  destruct (get body "Message-Id") as [e | v4]; [discriminate |].
  destruct (get body "attachments") as [e | raw]; [discriminate |].
  destruct (parse_attachments w raw) as [e | v5] eqn:P; [discriminate |].
  intro H. injection H as <-. simpl. repeat split; eauto.
Qed.

Lemma extract_ignores_non_string (w : World) (body raw : JsValue) :
  get body "attachments" = inr raw -> typeof_is_string raw = false ->
  exists x, extract w body [] = (inr x, []) /\ attachments x = VArr [].
Proof.
  intros Hraw Hty.
  destruct (get_defined body _ "sender" _ Hraw) as [v1 H1].
  destruct (get_defined body _ "subject" _ Hraw) as [v2 H2].
  destruct (get_defined body _ "stripped-text" _ Hraw) as [v3 H3].
  destruct (get_defined body _ "Message-Id" _ Hraw) as [v4 H4].
  unfold extract, bind, lift, ret. rewrite H1, H2, H3, H4, Hraw.
  unfold parse_attachments. rewrite Hty, andb_false_r.
  eexists. split; reflexivity.
Qed.

Lemma initial_userContent_images (x : Extracted) :
  image_parts (initial_userContent x) = [].
Proof.
  unfold initial_userContent. now destruct (ToBoolean (strippedText x)).
Qed.

Lemma request_images_of_content (uc : list ContentPart) :
  request_images (completion_request uc) = image_parts uc.
Proof. unfold request_images. simpl. apply app_nil_r. Qed.

(** ** The claims *)

(** C1, as the specification states it, fails: with an empty text and one
    PDF attachment the route calls the provider, with an empty user
    content, mails the reply and answers with success. *)
Lemma contentless_pdf_accepted :
  incoming_email Samples.friendly Samples.pdf_only_mail =
    (success,
     [ECompletion (completion_request []);
      ESend "mg.example.com"
        {| md_from := "assistant@mg.example.com";
           md_to := VStr "a@x.com";
           md_subject := "Re: Hi";
           md_text := "Four.";
           md_In_Reply_To := VStr "<1@x.com>";
           md_References := VStr "<1@x.com>" |}])
  /\ ~ rejects_contentless Samples.friendly Samples.pdf_only_mail.
Proof.
  split; [reflexivity |].
  intro H.
  destruct (H _ [Samples.pdf] eq_refl eq_refl eq_refl eq_refl)
    as (tr & E & _).
  vm_compute in E. discriminate.
Qed.

(** C1, amended.  A payload whose text is empty and whose attachment list
    is empty is answered with the validation error and no call is made;
    a payload whose text is empty and whose attachments, at least one, are
    all non-images passes the validation: the provider is called, with an
    empty user content. *)
Theorem contentless_rejected_without_attachment (w : World) (body : JsValue)
    (x : Extracted) :
  extract w body [] = (inr x, []) ->
  ToBoolean (strippedText x) = false ->
  (attachments x = VArr [] ->
   incoming_email w body = (failure w ValidationError, []))
  /\
  (forall atts,
      atts <> [] ->
      attachments x = VArr (map attachment_object atts) ->
      forallb (fun a => negb (is_image a)) atts = true ->
      exists resp rest,
        incoming_email w body =
          (resp, ECompletion (completion_request []) :: rest)).
Proof.
  intros Hx Ht. split.
  - intro Ha. apply incoming_email_not_generated.
    rewrite (before_generation_run w body x Hx).
    now rewrite (validate_rejects x [] Ht Ha).
  - intros atts Hne Ha Hall.
    assert (G : before_generation w body [] = (inr (x, []), [])).
    { rewrite (before_generation_run w body x Hx).
      destruct atts as [| a atts]; [congruence |].
      rewrite (validate_accepts_attachments x _ _ [] Ha).
      unfold build_userContent, initial_userContent. rewrite Ht, Ha.
      unfold bind, lift, iterate.
      rewrite (process_attachments_typed w (fun _ => [])).
      - now rewrite (no_image_filter _ Hall).
      - intros a' h Hin Hi. exfalso.
        rewrite forallb_forall in Hall. specialize (Hall a' Hin).
        now rewrite Hi in Hall. }
    destruct (incoming_email_generated w body x [] [] G)
      as (resp & rest & E & _).
    now exists resp, rest.
Qed.

Lemma contentless_rejected_without_attachment_witness :
  incoming_email Samples.friendly
    (Samples.payload "a@x.com" "Hi" "" "<1@x.com>" None)
  = (failure Samples.friendly ValidationError, [])
  /\
  exists resp rest,
    incoming_email Samples.friendly
      (Samples.payload "a@x.com" "Hi" "" "<1@x.com>"
         (Some Samples.pdf_only_text))
    = (resp, ECompletion (completion_request []) :: rest).
Proof.
  split.
  - refine (proj1 (contentless_rejected_without_attachment Samples.friendly
                     (Samples.payload "a@x.com" "Hi" "" "<1@x.com>" None)
                     _ eq_refl eq_refl) eq_refl).
  - refine (proj2 (contentless_rejected_without_attachment Samples.friendly
                     (Samples.payload "a@x.com" "Hi" "" "<1@x.com>"
                        (Some Samples.pdf_only_text))
                     _ eq_refl eq_refl) [Samples.pdf] _ eq_refl eq_refl).
    discriminate.
Defined.

(** C2, as the specification states it, fails: an attachment that declares
    no content type is not passed over; the test of its type throws, and
    the route answers with that error. *)
Lemma untyped_attachment_throws :
  get Samples.untyped_object "content-type" = inr VUndefined
  /\ process_attachment Samples.friendly Samples.untyped_object [] [] =
       (inl (TypeError (ReadOfNullish VUndefined "startsWith")), [])
  /\ incoming_email Samples.friendly Samples.untyped_mail =
       (json 500 "error"
          "Cannot read properties of undefined (reading 'startsWith')", [])
  /\ ~ skips_untyped Samples.friendly Samples.untyped_object.
Proof.
  repeat split.
  intro H. specialize (H eq_refl [] []). vm_compute in H. discriminate.
Qed.

(** C2, amended.  An attachment whose declared content type is a string
    that does not begin with "image/", well-formed or not, is treated as a
    non-image: it is passed over, adds no part, makes no call and throws
    nothing. *)
Theorem other_content_type_skipped (w : World) (attachment : JsValue)
    (ct : string) :
  get attachment "content-type" = inr (VStr ct) ->
  String.prefix "image/" ct = false ->
  skipped w attachment.
Proof.
  intros Hget Hpre uc tr. now apply process_attachment_other with ct.
Qed.

Lemma other_content_type_skipped_witness :
  skipped Samples.friendly
    (VObj [("url", VStr "https://files.example/x");
           ("content-type", VStr "not a mime type")]).
Proof.
  apply (other_content_type_skipped Samples.friendly _ "not a mime type");
    reflexivity.
Defined.

(** C3.  For a record whose text is non-empty and whose attachments are
    typed, N of them with a content type that starts with "image/": when
    the user content is returned it is the text part followed by one image
    part per image attachment, in the order of the attachments, 1 + N
    parts in all, and only the image attachments were fetched; and it is
    returned, with the bytes the server delivers, whenever each image
    attachment is delivered. *)
Theorem text_then_images (w : World) (x : Extracted) (st : string)
    (atts : list AttachmentRef) (tr : trace) :
  strippedText x = VStr st ->
  st <> ""%string ->
  attachments x = VArr (map attachment_object atts) ->
  let images := filter is_image atts in
  (forall parts tr',
      build_userContent w x tr = (inr parts, tr') ->
      exists rest,
        parts = text_part (VStr st) :: rest /\
        Forall2 (fun a p => exists bytes, p = image_part a bytes) images rest /\
        List.length parts = 1 + List.length images /\
        tr' = tr ++ map (fun a => EFetch (VStr (url a))) images)
  /\
  (forall bytes : AttachmentRef -> list byte,
      (forall a h, In a atts -> is_image a = true ->
         exists r, fetch w h (VStr (url a)) = inr r /\ ok r = true /\
                   arrayBuffer r = inr (bytes a)) ->
      build_userContent w x tr =
        (inr (text_part (VStr st)
                :: map (fun a => image_part a (bytes a)) images),
         tr ++ map (fun a => EFetch (VStr (url a))) images)).
Proof.
  intros Ht Hne Ha images.
  assert (Hinit : initial_userContent x = [text_part (VStr st)]).
  { unfold initial_userContent. rewrite Ht. simpl.
    destruct (String.eqb_spec st ""); [contradiction | reflexivity]. }
  unfold build_userContent. rewrite Hinit, Ha.
  unfold bind, lift, iterate. split.
  - intros parts tr' H.
    destruct (process_attachments_typed_inv w atts _ _ _ _ H)
      as (rest & -> & F & ->).
    exists rest. repeat split; auto.
    simpl. f_equal. symmetry. exact (Forall2_length F).
  - intros bytes Hnet.
    now rewrite (process_attachments_typed w bytes atts Hnet).
Qed.

Lemma text_then_images_witness :
  let x := {| sender := VStr "a@x.com"; subject := VStr "Hi";
              strippedText := VStr "What is in these pictures?";
              messageId := VStr "<1@x.com>";
              attachments :=
                VArr (map attachment_object
                        [Samples.pdf; Samples.cat; Samples.dog]) |} in
  build_userContent Samples.friendly x [] =
    (inr [text_part (VStr "What is in these pictures?");
          image_url_part "data:image/png;base64,iVBO";
          image_url_part "data:image/jpeg;base64,/9g="],
     [EFetch (VStr "https://files.example/cat.png");
      EFetch (VStr "https://files.example/dog.jpg")])
  /\ 3 = 1 + 2.
Proof.
  intro x.
  assert (Hne : "What is in these pictures?"%string <> ""%string)
    by discriminate.
  pose proof (text_then_images Samples.friendly x
                "What is in these pictures?"
                [Samples.pdf; Samples.cat; Samples.dog] []
                eq_refl Hne eq_refl) as [Hinv Hrun].
  assert (E : build_userContent Samples.friendly x [] =
                (inr [text_part (VStr "What is in these pictures?");
                      image_url_part "data:image/png;base64,iVBO";
                      image_url_part "data:image/jpeg;base64,/9g="],
                 [EFetch (VStr "https://files.example/cat.png");
                  EFetch (VStr "https://files.example/dog.jpg")])).
  { apply (Hrun (fun a => if String.eqb (url a) (url Samples.cat)
                          then Samples.png_bytes else Samples.jpg_bytes)).
    intros a h [<- | [<- | [<- | []]]] Hi; try discriminate Hi;
      eexists; repeat split; reflexivity. }
  split; [exact E |].
  destruct (Hinv _ _ E) as (rest & _ & _ & Hlen & _). exact Hlen.
Defined.

(** C4.  When a step before the dispatch fails (extraction, validation, an
    attachment download, the completion call, the extraction of the reply
    or the composition of the message), the route answers with the error
    and the mail client was never called; and when the route answers with
    success, the dispatch was the last call made, it was the only send and
    it completed without rejection. *)
Theorem no_dispatch_on_failure (w : World) (body : JsValue) :
  (forall e tr,
      before_dispatch w body [] = (inl e, tr) ->
      incoming_email w body = (failure w e, tr) /\ sends tr = [])
  /\
  (forall tr,
      incoming_email w body = (success, tr) ->
      exists pre data,
        before_dispatch w body [] = (inr data, pre) /\
        tr = pre ++ [ESend (MAILGUN_DOMAIN w) data] /\
        sends pre = [] /\
        messages_create w pre (MAILGUN_DOMAIN w) data = inr tt).
Proof.
  split.
  - intros e tr H. split.
    + now apply incoming_email_failed.
    + eapply before_dispatch_sends; eauto.
  - intros tr H.
    destruct (before_dispatch w body []) as [[e | data] pre] eqn:E.
    + rewrite (incoming_email_failed w body e pre E) in H. discriminate.
    + rewrite (incoming_email_dispatched w body data pre E) in H.
      exists pre, data.
      destruct (messages_create w pre (MAILGUN_DOMAIN w) data) as [e | []] eqn:Em;
        [discriminate |].
      injection H as <-. repeat split; auto.
      eapply before_dispatch_sends; eauto.
Qed.

Lemma no_dispatch_on_failure_witness :
  let empty := Samples.payload "a@x.com" "Hi" "" "<0@x.com>" None in
  let question :=
    Samples.payload "a@x.com" "Hi" "What is 2+2?" "<0@x.com>" None in
  (incoming_email Samples.friendly empty
   = (failure Samples.friendly ValidationError, [])
   /\ sends [] = [])
  /\
  exists pre data,
    before_dispatch Samples.friendly question [] = (inr data, pre) /\
    [ECompletion (completion_request [text_part (VStr "What is 2+2?")]);
     ESend "mg.example.com"
       {| md_from := "assistant@mg.example.com";
          md_to := VStr "a@x.com";
          md_subject := "Re: Hi";
          md_text := "Four.";
          md_In_Reply_To := VStr "<0@x.com>";
          md_References := VStr "<0@x.com>" |}]
    = pre ++ [ESend (MAILGUN_DOMAIN Samples.friendly) data] /\
    sends pre = [] /\
    messages_create Samples.friendly pre
      (MAILGUN_DOMAIN Samples.friendly) data = inr tt.
Proof.
  intros empty question. split.
  - exact (proj1 (no_dispatch_on_failure Samples.friendly empty)
             ValidationError [] eq_refl).
  - exact (proj2 (no_dispatch_on_failure Samples.friendly question)
             _ eq_refl).
Defined.

(** C5.  The subject of the composed reply is "Re: " followed by the
    original subject, whatever that subject is: nothing is removed when it
    already starts with "Re: ", and an empty subject gives "Re: ".  The
    composition does not fail, and every message the route sends carries
    that subject. *)
Theorem reply_subject (w : World) (x : Extracted) (s : string) :
  subject x = VStr s ->
  (forall reply tr,
      exists data,
        compose w x reply tr = (inr data, tr) /\
        md_subject data = ("Re: " ++ s)%string)
  /\
  (forall body data,
      extract w body [] = (inr x, []) ->
      In data (sends (snd (incoming_email w body))) ->
      md_subject data = ("Re: " ++ s)%string).
Proof.
  intro Hs. split.
  - intros reply tr. rewrite compose_run, Hs. simpl.
    eexists. split; reflexivity.
  - intros body data Hx Hin.
    destruct (sent_message w body data Hin)
      as (x' & uc & tr & completion & reply & Hx' & _ & _ & _ & _ & Hc).
    rewrite Hx in Hx'. injection Hx' as <-.
    rewrite compose_run, Hs in Hc. simpl in Hc. now injection Hc as <-.
Qed.

Lemma reply_subject_witness :
  let body := Samples.payload "a@x.com" "Re: Hi" "Thanks!" "<2@x.com>" None in
  let data := {| md_from := "assistant@mg.example.com";
                 md_to := VStr "a@x.com";
                 md_subject := "Re: Re: Hi";
                 md_text := "Four.";
                 md_In_Reply_To := VStr "<2@x.com>";
                 md_References := VStr "<2@x.com>" |} in
  In data (sends (snd (incoming_email Samples.friendly body)))
  /\ md_subject data = "Re: Re: Hi".
Proof.
  intros body data.
  assert (Hin : In data (sends (snd (incoming_email Samples.friendly body))))
    by (left; reflexivity).
  split; [exact Hin |].
  exact (proj2 (reply_subject Samples.friendly
                  {| sender := VStr "a@x.com"; subject := VStr "Re: Hi";
                     strippedText := VStr "Thanks!";
                     messageId := VStr "<2@x.com>";
                     attachments := VArr [] |}
                  "Re: Hi" eq_refl)
           body data eq_refl Hin).
Defined.

(** C6.  Both threading headers of a composed reply are the message id of
    the payload.  When the payload has a "Message-Id", every message the
    route sends has it as [In-Reply-To] and as [References]; when it has
    none, both headers are [undefined], the value of an absent property,
    and no placeholder is put in their place. *)
Theorem threading_headers (w : World) :
  (forall x reply tr data,
      compose w x reply tr = (inr data, tr) ->
      md_In_Reply_To data = messageId x /\ md_References data = messageId x)
  /\
  (forall props data,
      In data (sends (snd (incoming_email w (VObj props)))) ->
      match assoc "Message-Id" props with
      | Some id => md_In_Reply_To data = id /\ md_References data = id
      | None =>
          md_In_Reply_To data = VUndefined /\ md_References data = VUndefined
      end).
Proof.
  assert (Hc : forall x reply tr data,
             compose w x reply tr = (inr data, tr) ->
             md_In_Reply_To data = messageId x /\
             md_References data = messageId x).
  { intros x reply tr data H. rewrite compose_run in H.
    destruct (ToString (Number_toString w) (subject x)); [discriminate |].
    injection H as <-. split; reflexivity. }
  split; [exact Hc |].
  intros props data Hin.
  destruct (sent_message w (VObj props) data Hin)
    as (x & uc & tr & completion & reply & Hx & _ & _ & _ & _ & Hd).
  apply Hc in Hd. destruct Hd as [-> ->].
  destruct (extract_fields w _ x Hx) as (_ & _ & _ & Hid & _).
  simpl in Hid. destruct (assoc "Message-Id" props); injection Hid as <-; auto.
Qed.

Lemma threading_headers_witness :
  let threaded :=
    {| md_from := "assistant@mg.example.com"; md_to := VStr "a@x.com";
       md_subject := "Re: Hi"; md_text := "Four.";
       md_In_Reply_To := VStr "<3@x.com>";
       md_References := VStr "<3@x.com>" |} in
  let unthreaded :=
    {| md_from := "assistant@mg.example.com"; md_to := VStr "a@x.com";
       md_subject := "Re: Hi"; md_text := "Four.";
       md_In_Reply_To := VUndefined; md_References := VUndefined |} in
  (md_In_Reply_To threaded = VStr "<3@x.com>" /\
   md_References threaded = VStr "<3@x.com>")
  /\
  (md_In_Reply_To unthreaded = VUndefined /\
   md_References unthreaded = VUndefined).
Proof.
  intros threaded unthreaded. split.
  - refine (proj2 (threading_headers Samples.friendly)
              [("sender", VStr "a@x.com"); ("subject", VStr "Hi");
               ("stripped-text", VStr "What is 2+2?");
               ("Message-Id", VStr "<3@x.com>")]
              threaded _).
    left. reflexivity.
  - refine (proj2 (threading_headers Samples.friendly)
              [("sender", VStr "a@x.com"); ("subject", VStr "Hi");
               ("stripped-text", VStr "What is 2+2?")]
              unthreaded _).
    left. reflexivity.
Defined.

(** The answer of the route from the content line 140 extracts. *)
Lemma reply_from_extracted_content (w : World) (body : JsValue)
    (x : Extracted) (uc : list ContentPart) (tr : trace)
    (completion : ChatCompletion) :
  before_generation w body [] = (inr (x, uc), tr) ->
  chat_completions_create w tr (completion_request uc) = inr completion ->
  let called := tr ++ [ECompletion (completion_request uc)] in
  (first_content completion = None \/
   first_content completion = Some ""%string ->
   incoming_email w body = (failure w GenerationError, called) /\
   sends called = [])
  /\
  (forall reply,
      first_content completion = Some reply -> reply <> ""%string ->
      generate w uc tr = (inr reply, called) /\
      (forall data,
          In data (sends (snd (incoming_email w body))) ->
          md_text data = reply) /\
      (forall s,
          subject x = VStr s ->
          snd (incoming_email w body) =
            called ++ [ESend (MAILGUN_DOMAIN w)
                         {| md_from := FROM_EMAIL w;
                            md_to := sender x;
                            md_subject := ("Re: " ++ s)%string;
                            md_text := reply;
                            md_In_Reply_To := messageId x;
                            md_References := messageId x |}])).
Proof.
  intros G C called.
  assert (Hsends : sends called = []).
  { unfold called. rewrite sends_app.
    now rewrite (is_fetch_sends _ (before_generation_fetches w _ _ _ G)). }
  split.
  - intros Hnone. split; [| exact Hsends].
    apply incoming_email_failed.
    rewrite before_dispatch_run, G, generate_run, C. simpl fst.
    now destruct Hnone as [-> | ->].
  - intros reply F Hne.
    assert (Hgen : generate w uc tr = (inr reply, called)).
    { rewrite generate_run, C, F.
      destruct (String.eqb_spec reply ""); [contradiction | reflexivity]. }
    split; [exact Hgen |]. split.
    + intros data Hin.
      destruct (sent_message w body data Hin)
        as (x' & uc' & tr' & completion' & reply' & _ & G' & C' & F' & _ & Hc).
      rewrite G in G'. injection G' as <- <- <-.
      rewrite C in C'. injection C' as <-.
      rewrite F in F'. injection F' as <-.
      rewrite compose_run in Hc.
      destruct (ToString (Number_toString w) (subject x)); [discriminate |].
      now injection Hc as <-.
    + intros s Hs.
      assert (E : before_dispatch w body [] =
                    (inr {| md_from := FROM_EMAIL w;
                            md_to := sender x;
                            md_subject := ("Re: " ++ s)%string;
                            md_text := reply;
                            md_In_Reply_To := messageId x;
                            md_References := messageId x |}, called)).
      { rewrite before_dispatch_run, G, Hgen. cbn [fst].
        now rewrite compose_run, Hs. }
      now rewrite (incoming_email_dispatched w body _ _ E).
Qed.

(** C7.  Once the provider has answered the request, the route looks at
    the head of the list of choices and at nothing after it.  If the list
    is empty, or its first choice has no message, or that message has no
    content or an empty one, the route answers with the generation error
    and the mail client is not called, whatever the later choices hold.
    Otherwise the reply is the content of the first choice as it is:
    every message the route sends has it as its body, and for a payload
    whose subject is a string the message is sent. *)
Theorem reply_is_first_choice (w : World) (body : JsValue) (x : Extracted)
    (uc : list ContentPart) (tr : trace) (completion : ChatCompletion) :
  before_generation w body [] = (inr (x, uc), tr) ->
  chat_completions_create w tr (completion_request uc) = inr completion ->
  let called := tr ++ [ECompletion (completion_request uc)] in
  (choices completion = [] \/
   (exists first rest,
       choices completion = first :: rest /\
       (message first = None \/
        exists m,
          message first = Some m /\
          (message_content m = None \/
           message_content m = Some ""%string))) ->
   incoming_email w body =
     (json 500 "error" "Failed to generate AI response", called) /\
   sends called = [])
  /\
  (forall first rest m reply,
      choices completion = first :: rest ->
      message first = Some m ->
      message_content m = Some reply ->
      reply <> ""%string ->
      generate w uc tr = (inr reply, called) /\
      (forall data,
          In data (sends (snd (incoming_email w body))) ->
          md_text data = reply) /\
      (forall s,
          subject x = VStr s ->
          snd (incoming_email w body) =
            called ++ [ESend (MAILGUN_DOMAIN w)
                         {| md_from := FROM_EMAIL w;
                            md_to := sender x;
                            md_subject := ("Re: " ++ s)%string;
                            md_text := reply;
                            md_In_Reply_To := messageId x;
                            md_References := messageId x |}])).
Proof.
  intros G C called.
  destruct (reply_from_extracted_content w body x uc tr completion G C)
    as [Hnone Hsome].
  split.
  - intros H. apply Hnone. unfold first_content.
    destruct H as [-> | (first & rest & -> & [-> | (m & -> & [-> | ->])])];
      auto.
  - intros first rest m reply Hc Hm Hr Hne. apply Hsome; [| exact Hne].
    unfold first_content. now rewrite Hc, Hm.
Qed.

Lemma reply_is_first_choice_witness :
  let body := Samples.payload "a@x.com" "Hi" "What is 2+2?" "<4@x.com>" None in
  let request := completion_request [text_part (VStr "What is 2+2?")] in
  let choice (s : option string) : Choice :=
    {| message := Some {| message_content := s |} |} in
  (incoming_email (Samples.world (inr {| choices := [] |}) (inr tt)) body
   = (json 500 "error" "Failed to generate AI response",
      [ECompletion request]))
  /\
  (incoming_email
     (Samples.world
        (inr {| choices := [choice None; choice (Some "Five.")] |}) (inr tt))
     body
   = (json 500 "error" "Failed to generate AI response",
      [ECompletion request]))
  /\
  snd (incoming_email
         (Samples.world
            (inr {| choices := [choice (Some "Four."); choice (Some "Five.")] |})
            (inr tt))
         body) =
    [ECompletion request;
     ESend "mg.example.com"
       {| md_from := "assistant@mg.example.com";
          md_to := VStr "a@x.com";
          md_subject := "Re: Hi";
          md_text := "Four.";
          md_In_Reply_To := VStr "<4@x.com>";
          md_References := VStr "<4@x.com>" |}].
Proof.
  intros body request choice.
  pose (x := {| sender := VStr "a@x.com"; subject := VStr "Hi";
                strippedText := VStr "What is 2+2?";
                messageId := VStr "<4@x.com>";
                attachments := VArr [] |}).
  split; [| split].
  - refine (proj1 (proj1 (reply_is_first_choice
                            (Samples.world (inr {| choices := [] |}) (inr tt))
                            body x [text_part (VStr "What is 2+2?")] []
                            {| choices := [] |} eq_refl eq_refl)
                     (or_introl eq_refl))).
  - refine (proj1 (proj1 (reply_is_first_choice
                            (Samples.world
                               (inr {| choices :=
                                         [choice None;
                                          choice (Some "Five.")] |})
                               (inr tt))
                            body x [text_part (VStr "What is 2+2?")] []
                            {| choices :=
                                 [choice None; choice (Some "Five.")] |}
                            eq_refl eq_refl)
                     (or_intror _))).
    exists (choice None), [choice (Some "Five.")].
    split; [reflexivity |]. right.
    exists {| message_content := None |}. split; [reflexivity | now left].
  - refine (proj2 (proj2 (proj2 (reply_is_first_choice
                                   (Samples.world
                                      (inr {| choices :=
                                                [choice (Some "Four.");
                                                 choice (Some "Five.")] |})
                                      (inr tt))
                                   body x [text_part (VStr "What is 2+2?")] []
                                   {| choices :=
                                        [choice (Some "Four.");
                                         choice (Some "Five.")] |}
                                   eq_refl eq_refl)
                            (choice (Some "Four.")) [choice (Some "Five.")]
                            {| message_content := Some "Four." |} "Four."
                            eq_refl eq_refl eq_refl _))
              "Hi" eq_refl).
    discriminate.
Defined.

(** C8.  A download whose response is not a success makes one call and
    fails with the download error, which carries the status and its text.
    In the route, the first image attachment that is refused ends the
    handling of the whole payload: the route answers with that error, the
    refused fetch was made once and is the last call, so no later
    attachment is fetched, the provider is not called and nothing is
    sent. *)
Theorem refused_download_aborts (w : World) :
  (forall u h r,
      fetch w h u = inr r -> ok r = false ->
      downloadAttachment w u h =
        (inl (DownloadError (status r) (statusText r)), h ++ [EFetch u]))
  /\
  (forall body x pre a post r uc tr,
      extract w body [] = (inr x, []) ->
      attachments x = VArr (map attachment_object (pre ++ a :: post)) ->
      process_attachments w (map attachment_object pre)
        (initial_userContent x) [] = (inr uc, tr) ->
      is_image a = true ->
      fetch w tr (VStr (url a)) = inr r -> ok r = false ->
      incoming_email w body =
        (json 500 "error"
           ("Failed to download attachment: " ++ decimal (status r) ++ " "
            ++ statusText r)%string,
         tr ++ [EFetch (VStr (url a))])
      /\ Forall is_fetch tr
      /\ completions (tr ++ [EFetch (VStr (url a))]) = []
      /\ sends (tr ++ [EFetch (VStr (url a))]) = []).
Proof.
  split; [intros u h r; apply downloadAttachment_refused |].
  intros body x pre a post r uc tr Hx Ha Hpre Hi Hf Hok.
  assert (Htr : Forall is_fetch tr).
  { destruct (process_attachments_emits w (map attachment_object pre)
                (initial_userContent x) []) as (evs & E & F).
    rewrite Hpre in E. simpl in E. now subst tr. }
  assert (G : before_generation w body [] =
                (inl (DownloadError (status r) (statusText r)),
                 tr ++ [EFetch (VStr (url a))])).
  { rewrite (before_generation_run w body x Hx).
    assert (V : validate x [] = (inr tt, [])).
    { destruct (map attachment_object (pre ++ a :: post)) as [| v l] eqn:E.
      - apply map_eq_nil in E. now destruct pre.
      - now apply validate_accepts_attachments with v l. }
    rewrite V. unfold build_userContent. rewrite Ha.
    unfold bind at 1. unfold lift, iterate.
    rewrite map_app, process_attachments_app, Hpre. simpl.
    now rewrite (bind_failed _ _ _ _ _
                   (process_attachment_refused w a r uc tr Hi Hf Hok)). }
  split; [exact (incoming_email_not_generated w body _ _ G) |].
  split; [exact Htr |].
  rewrite completions_app, sends_app.
  rewrite (is_fetch_completions _ Htr), (is_fetch_sends _ Htr).
  split; reflexivity.
Qed.

Lemma refused_download_aborts_witness :
  incoming_email Samples.friendly
    (Samples.payload "a@x.com" "Hi" "Look" "<5@x.com>"
       (Some Samples.broken_text))
  = (json 500 "error" "Failed to download attachment: 404 Not Found",
     [EFetch (VStr "https://files.example/cat.png");
      EFetch (VStr "https://files.example/gone.png")]).
Proof.
  refine (proj1 (proj2 (refused_download_aborts Samples.friendly)
                   (Samples.payload "a@x.com" "Hi" "Look" "<5@x.com>"
                      (Some Samples.broken_text))
                   _ [Samples.cat] Samples.gone [Samples.dog]
                   {| ok := false; status := 404; statusText := "Not Found";
                      arrayBuffer := inr [] |}
                   _ [EFetch (VStr "https://files.example/cat.png")]
                   eq_refl eq_refl eq_refl eq_refl eq_refl eq_refl)).
Defined.

(** C9, as the specification states it, fails: a payload without sender
    that has a text is not rejected; the provider is called and the reply
    is handed to the mail client with no recipient. *)
Lemma missing_sender_accepted :
  incoming_email Samples.friendly (VObj Samples.senderless) =
    (success,
     [ECompletion (completion_request [text_part (VStr "hello")]);
      ESend "mg.example.com"
        {| md_from := "assistant@mg.example.com";
           md_to := VUndefined;
           md_subject := "Re: Hi";
           md_text := "Four.";
           md_In_Reply_To := VUndefined;
           md_References := VUndefined |}])
  /\ ~ rejects_without_sender Samples.friendly Samples.senderless.
Proof.
  split; [reflexivity |].
  intro H. specialize (H eq_refl). vm_compute in H. discriminate.
Qed.

(** C9, amended.  The validation step looks at the text and at the
    attachment list only.  Every payload, with or without a sender, whose
    text is empty and whose attachment list is empty is answered with the
    validation error before any call; every payload that has a text passes
    the validation, whatever its sender; every message the route sends is
    addressed to the sender the payload gave, so that a payload without
    sender gets its reply sent to an undefined recipient. *)
Theorem sender_not_validated (w : World) (body : JsValue) (x : Extracted) :
  extract w body [] = (inr x, []) ->
  (ToBoolean (strippedText x) = false -> attachments x = VArr [] ->
   incoming_email w body = (failure w ValidationError, []))
  /\
  (ToBoolean (strippedText x) = true -> validate x [] = (inr tt, []))
  /\
  (forall data,
      In data (sends (snd (incoming_email w body))) ->
      md_to data = sender x)
  /\
  (forall props,
      body = VObj props ->
      assoc "sender" props = None ->
      sender x = VUndefined /\
      forall data,
        In data (sends (snd (incoming_email w body))) ->
        md_to data = VUndefined).
Proof.
  intros Hx.
  assert (Hto : forall data,
             In data (sends (snd (incoming_email w body))) ->
             md_to data = sender x).
  { intros data Hin.
    destruct (sent_message w _ data Hin)
      as (x' & uc & tr & completion & reply & Hx' & _ & _ & _ & _ & Hc).
    rewrite Hx in Hx'. injection Hx' as <-.
    rewrite compose_run in Hc.
    destruct (ToString (Number_toString w) (subject x)); [discriminate |].
    now injection Hc as <-. }
  split; [| split; [| split]].
  - intros Ht Ha. apply incoming_email_not_generated.
    rewrite (before_generation_run w _ x Hx).
    now rewrite (validate_rejects x [] Ht Ha).
  - intro Ht. now apply validate_accepts_text.
  - exact Hto.
  - intros props -> Hs.
    assert (Hsender : sender x = VUndefined).
    { destruct (extract_fields w _ x Hx) as (H & _). simpl in H.
      rewrite Hs in H. now injection H as <-. }
    split; [exact Hsender |].
    intros data Hin. rewrite <- Hsender. now apply Hto.
Qed.

Lemma sender_not_validated_witness :
  let props := [("subject", VStr "Hi"); ("stripped-text", VStr "hello")] in
  let x := {| sender := VUndefined; subject := VStr "Hi";
              strippedText := VStr "hello"; messageId := VUndefined;
              attachments := VArr [] |} in
  let data := {| md_from := "assistant@mg.example.com";
                 md_to := VUndefined;
                 md_subject := "Re: Hi";
                 md_text := "Four.";
                 md_In_Reply_To := VUndefined;
                 md_References := VUndefined |} in
  incoming_email Samples.friendly
    (Samples.payload "a@x.com" "Hi" "" "<9@x.com>" None)
  = (failure Samples.friendly ValidationError, [])
  /\ incoming_email Samples.friendly (VObj [("subject", VStr "Hi")])
     = (failure Samples.friendly ValidationError, [])
  /\ validate x [] = (inr tt, [])
  /\ In data (sends (snd (incoming_email Samples.friendly (VObj props))))
  /\ md_to data = VUndefined.
Proof.
  intros props x data.
  pose proof (sender_not_validated Samples.friendly (VObj props) x eq_refl)
    as (_ & Hv & _ & Hnone).
  assert (Hin : In data
                  (sends (snd (incoming_email Samples.friendly (VObj props)))))
    by (left; reflexivity).
  split; [| split; [| split; [| split]]].
  - exact (proj1 (sender_not_validated Samples.friendly
                    (Samples.payload "a@x.com" "Hi" "" "<9@x.com>" None)
                    _ eq_refl)
             eq_refl eq_refl).
  - exact (proj1 (sender_not_validated Samples.friendly
                    (VObj [("subject", VStr "Hi")]) _ eq_refl)
             eq_refl eq_refl).
  - exact (Hv eq_refl).
  - exact Hin.
  - exact (proj2 (Hnone props eq_refl eq_refl) data Hin).
Defined.

(** C10.  When the payload's [attachments] is present but is not a string
    (an array that is already parsed, say), the attachment list is empty
    whatever the field holds: no attachment is fetched and no request to
    the provider has an image part. *)
Theorem non_string_attachments_ignored (w : World) (body raw : JsValue) :
  get body "attachments" = inr raw ->
  typeof_is_string raw = false ->
  (exists x, extract w body [] = (inr x, []) /\ attachments x = VArr [])
  /\ fetches (snd (incoming_email w body)) = []
  /\ (forall request,
         In request (completions (snd (incoming_email w body))) ->
         request_images request = []).
Proof.
  intros Hraw Hty.
  destruct (extract_ignores_non_string w body raw Hraw Hty) as (x & Hx & Ha).
  split; [now exists x |].
  pose proof (before_generation_run w body x Hx) as G.
  destruct (validate_pure x) as [r Hr]. rewrite Hr in G.
  destruct r as [e | []].
  - rewrite (incoming_email_not_generated w body _ _ G). simpl.
    split; [reflexivity | intros request []].
  - unfold build_userContent in G. rewrite Ha in G.
    unfold bind, lift, iterate in G. simpl in G.
    destruct (incoming_email_generated w body _ _ _ G)
      as (resp & rest & E & Hrest).
    rewrite E. simpl.
    destruct Hrest as [-> | [data ->]]; cbn [fetches completions flat_map app].
    + split; [reflexivity |].
      intros request [<- | []].
      now rewrite request_images_of_content, initial_userContent_images.
    + split; [reflexivity |].
      intros request [<- | []].
      now rewrite request_images_of_content, initial_userContent_images.
Qed.

Lemma non_string_attachments_ignored_witness :
  let body :=
    VObj [("sender", VStr "a@x.com"); ("subject", VStr "Hi");
          ("stripped-text", VStr "Look");
          ("attachments", VArr [attachment_object Samples.cat])] in
  fetches (snd (incoming_email Samples.friendly body)) = []
  /\ request_images (completion_request [text_part (VStr "Look")]) = [].
Proof.
  intro body.
  pose proof (non_string_attachments_ignored Samples.friendly body
                (VArr [attachment_object Samples.cat]) eq_refl eq_refl)
    as (_ & Hf & Hr).
  split; [exact Hf |].
  apply Hr. left. reflexivity.
Defined.

(** ** Further properties of the route *)

Lemma prefix_append (p s r : string) :
  String.prefix p s = true -> String.prefix p (s ++ r)%string = true.
Proof.
  revert s. induction p as [| c p IH]; intros s.
  { intros _. now destruct (s ++ r)%string. }
  destruct s as [| d s]; simpl; [discriminate |].
  destruct (Ascii.ascii_dec c d); [apply IH | discriminate].
Qed.

(** The data URI of an image part names an image type. *)
Lemma data_uri_prefix (ct rest : string) :
  String.prefix "image/" ct = true ->
  String.prefix "data:image/" ("data:" ++ ct ++ rest)%string = true.
Proof.
  intro H. apply (prefix_append "image/" ct rest) in H.
  simpl. exact H.
Qed.

Section Shapes.
Variable w : World.

(** One turn of the loop makes at most one fetch, and adds a part, an
    image part, only after a fetch. *)
Lemma process_attachment_shape (v : JsValue) (uc : list ContentPart)
    (tr tr' : trace) (r : result (list ContentPart)) :
  process_attachment w v uc tr = (r, tr') ->
  (tr' = tr /\ (r = inr uc \/ exists e, r = inl e)) \/
  (exists u,
      tr' = tr ++ [EFetch u] /\
      ((exists e, r = inl e) \/
       exists uri,
         String.prefix "data:image/" uri = true /\
         r = inr (uc ++ [image_url_part uri]))).
Proof.
  unfold process_attachment, bind, lift, ret.
  destruct (get v "content-type") as [e | ct] eqn:Hct.
  { intro H. injection H as <- <-. left. eauto. }
  destruct ct; simpl;
    try (intro H; injection H as <- <-; left; eauto).
  destruct (String.prefix "image/" s) eqn:Hp.
  - destruct (get v "url") as [e | u]; simpl.
    { intro H. injection H as <- <-. left. eauto. }
    unfold downloadAttachment, bind, await, lift, throw.
    destruct (fetch w tr u) as [e | resp].
    { intro H. injection H as <- <-. right. exists u. eauto. }
    destruct (ok resp); simpl.
    + destruct (arrayBuffer resp) as [e | bytes].
      { intro H. injection H as <- <-. right. exists u. eauto. }
      intro H. injection H as <- <-. right. exists u. split; auto.
      right. eexists. split; [| reflexivity].
      now apply data_uri_prefix.
    + intro H. injection H as <- <-. right. exists u. eauto.
  - intro H. injection H as <- <-. left. eauto.
Qed.

(** The loop only fetches, and when it returns it has added one image
    part per fetch, after the parts it started with. *)
Lemma process_attachments_shape (items : list JsValue) :
  forall uc tr r tr',
    process_attachments w items uc tr = (r, tr') ->
    exists fs,
      tr' = tr ++ map EFetch fs /\
      forall parts,
        r = inr parts ->
        exists uris,
          parts = uc ++ map image_url_part uris /\
          List.length uris = List.length fs /\
          Forall (fun uri => String.prefix "data:image/" uri = true) uris.
Proof.
  induction items as [| v items IH]; intros uc tr r tr'; simpl.
  - unfold ret. intro H. injection H as <- <-. exists []. split.
    + now rewrite app_nil_r.
    + intros parts E. injection E as <-. exists []. now rewrite app_nil_r.
  - unfold bind.
    destruct (process_attachment w v uc tr) as [[e | uc1] tr1] eqn:E.
    + intro H. injection H as <- <-.
      destruct (process_attachment_shape _ _ _ _ _ E)
        as [(-> & _) | (u & -> & _)].
      * exists []. split; [now rewrite app_nil_r | discriminate].
      * exists [u]. split; [reflexivity | discriminate].
    + intro H. destruct (IH _ _ _ _ H) as (fs & -> & Hparts).
      destruct (process_attachment_shape _ _ _ _ _ E)
        as [(-> & [E1 | (e & E1)]) | (u & -> & [(e & E1) | (uri & Hp & E1)])];
        try discriminate; injection E1 as ->.
      * exists fs. split; [reflexivity | exact Hparts].
      * exists (u :: fs). split; [now rewrite <- app_assoc |].
        intros parts Er. destruct (Hparts parts Er) as (uris & -> & Hl & Hf).
        exists (uri :: uris). rewrite <- app_assoc. simpl.
        repeat split; auto.
Qed.

(** The user content that reaches the provider: the parts the text gave,
    then one image part per fetch made. *)
Lemma before_generation_shape (body : JsValue) (x : Extracted)
    (uc : list ContentPart) (tr : trace) :
  before_generation w body [] = (inr (x, uc), tr) ->
  exists fs uris,
    tr = map EFetch fs /\
    uc = initial_userContent x ++ map image_url_part uris /\
    List.length uris = List.length fs /\
    Forall (fun uri => String.prefix "data:image/" uri = true) uris.
Proof.
  intro G. pose proof (before_generation_extracted w _ _ _ _ G) as Hx.
  rewrite (before_generation_run w body x Hx) in G.
  destruct (validate x []) as [[e | []] tr0]; [discriminate |].
  unfold build_userContent, bind, lift in G.
  destruct (iterate (attachments x)) as [e | items]; [discriminate |].
  destruct (process_attachments w items (initial_userContent x) [])
    as [[e | parts] tr1] eqn:P; [discriminate |].
  injection G as <- <-.
  destruct (process_attachments_shape _ _ _ _ _ P) as (fs & -> & Hparts).
  destruct (Hparts parts eq_refl) as (uris & -> & Hl & Hf).
  now exists fs, uris.
Qed.
End Shapes.

Lemma fetch_events (tr : trace) :
  Forall is_fetch tr -> exists fs, tr = map EFetch fs.
Proof.
  induction 1 as [| e tr He _ (fs & ->)]; [now exists [] |].
  destruct e as [u | |]; try contradiction. now exists (u :: fs).
Qed.

Lemma fetches_of_fetch_events (fs : list JsValue) :
  fetches (map EFetch fs) = fs.
Proof. induction fs as [| u fs IH]; simpl; [| rewrite IH]; reflexivity. Qed.

Lemma fetch_events_are_fetches (fs : list JsValue) :
  Forall is_fetch (map EFetch fs).
Proof. induction fs; simpl; constructor; simpl; auto. Qed.

(** The calls of one request, from what preceded the completion call. *)
Lemma incoming_email_calls (w : World) (body : JsValue) :
  match before_generation w body [] with
  | (inl e, tr) => incoming_email w body = (failure w e, tr)
  | (inr (x, uc), tr) =>
      exists resp rest,
        incoming_email w body =
          (resp, tr ++ ECompletion (completion_request uc) :: rest) /\
        (rest = [] \/ exists data, rest = [ESend (MAILGUN_DOMAIN w) data])
  end.
Proof.
  destruct (before_generation w body []) as [[e | [x uc]] tr] eqn:G.
  - now apply incoming_email_not_generated.
  - now apply incoming_email_generated with x.
Qed.

(** X1.  The calls of one request come in a fixed order: the downloads,
    then at most one call of the completion provider, then at most one
    call of the mail client, which the completion call always precedes. *)
Theorem call_order (w : World) (body : JsValue) :
  exists fs,
    snd (incoming_email w body) = map EFetch fs \/
    (exists request,
        snd (incoming_email w body) = map EFetch fs ++ [ECompletion request])
    \/
    (exists request data,
        snd (incoming_email w body) =
          map EFetch fs
            ++ [ECompletion request; ESend (MAILGUN_DOMAIN w) data]).
Proof.
  pose proof (incoming_email_calls w body) as H.
  destruct (before_generation w body []) as [[e | [x uc]] tr] eqn:G;
    destruct (fetch_events tr (before_generation_fetches w _ _ _ G))
      as (fs & ->); exists fs.
  - rewrite H. now left.
  - destruct H as (resp & rest & -> & [-> | (data & ->)]); right; simpl.
    + left. eauto.
    + right. eauto.
Qed.

(** X2.  Every request the route sends to the provider is the fixed system
    message followed by one user message, for the model "gpt-4o-mini" with
    at most 1000 tokens; the user message holds the text as it came, when
    there is one, and then one image part per download made, each a data
    URI of an image type. *)
Theorem request_form (w : World) (body : JsValue) (x : Extracted)
    (request : CompletionRequest) :
  extract w body [] = (inr x, []) ->
  In request (completions (snd (incoming_email w body))) ->
  exists uris,
    request =
      {| messages :=
           [system_message;
            {| role := "user";
               content :=
                 content_parts
                   ((if ToBoolean (strippedText x)
                     then [text_part (strippedText x)] else [])
                    ++ map image_url_part uris) |}];
         model := "gpt-4o-mini";
         max_tokens := 1000 |}
    /\ List.length uris = List.length (fetches (snd (incoming_email w body)))
    /\ Forall (fun uri => String.prefix "data:image/" uri = true) uris.
Proof.
  intros Hx Hin. pose proof (incoming_email_calls w body) as H.
  destruct (before_generation w body []) as [[e | [x' uc]] tr] eqn:G.
  - rewrite H in Hin. simpl in Hin.
    rewrite (is_fetch_completions _ (before_generation_fetches w _ _ _ G))
      in Hin. destruct Hin.
  - pose proof (before_generation_extracted w _ _ _ _ G) as Hx'.
    rewrite Hx in Hx'. injection Hx' as <-.
    destruct (before_generation_shape w _ _ _ _ G)
      as (fs & uris & -> & -> & Hl & Hf).
    destruct H as (resp & rest & E & Hrest). rewrite E in Hin |- *.
    cbn [snd] in Hin |- *.
    rewrite completions_app in Hin.
    rewrite (is_fetch_completions _ (fetch_events_are_fetches fs)) in Hin.
    assert (Hreq : request =
                     completion_request
                       (initial_userContent x ++ map image_url_part uris)).
    { destruct Hrest as [-> | (data & ->)]; simpl in Hin;
        destruct Hin as [<- | []]; reflexivity. }
    exists uris. split; [| split; [| exact Hf]].
    + rewrite Hreq. unfold completion_request, initial_userContent. simpl.
      now destruct (ToBoolean (strippedText x)).
    + rewrite Hl. unfold fetches. rewrite flat_map_app.
      fold (fetches (map EFetch fs)). rewrite fetches_of_fetch_events.
      destruct Hrest as [-> | (data & ->)]; simpl; now rewrite app_nil_r.
Qed.

Lemma request_form_witness :
  exists uris,
    completion_request
      [text_part (VStr "Look"); image_url_part "data:image/png;base64,iVBO"]
    = {| messages :=
           [system_message;
            {| role := "user";
               content :=
                 content_parts ([text_part (VStr "Look")]
                                ++ map image_url_part uris) |}];
         model := "gpt-4o-mini";
         max_tokens := 1000 |}
    /\ List.length uris = 1
    /\ Forall (fun uri => String.prefix "data:image/" uri = true) uris.
Proof.
  refine (request_form MoreSamples.friendly
            (Samples.payload "a@x.com" "Hi" "Look" "<6@x.com>"
               (Some MoreSamples.cat_only_text))
            _ _ eq_refl _).
  left. reflexivity.
Defined.

(** The mail client is called for the configured domain only, with a
    message composed before the call. *)
Lemma send_event (w : World) (body : JsValue) (d : string)
    (data : MessageData) :
  In (ESend d data) (snd (incoming_email w body)) ->
  d = MAILGUN_DOMAIN w /\ In data (sends (snd (incoming_email w body))).
Proof.
  destruct (before_dispatch w body []) as [[e | data'] pre] eqn:E.
  - rewrite (incoming_email_failed w body e pre E). simpl. intro Hin.
    destruct (before_dispatch_emits w body []) as (evs & Etr & F).
    rewrite E in Etr. simpl in Etr. subst pre.
    rewrite Forall_forall in F. destruct (F _ Hin).
  - rewrite (incoming_email_dispatched w body data' pre E). simpl.
    intro Hin. rewrite sends_app, (before_dispatch_sends w _ _ _ E).
    apply in_app_or in Hin. destruct Hin as [Hin | [Heq | []]].
    + destruct (before_dispatch_emits w body []) as (evs & Etr & F).
      rewrite E in Etr. simpl in Etr. subst pre.
      rewrite Forall_forall in F. destruct (F _ Hin).
    + injection Heq as <- <-. split; [reflexivity | now left].
Qed.

(** X3.  Every reply the route hands to the mail client goes through the
    configured domain, from the configured address, to the sender of the
    payload, whatever value that is. *)
Theorem reply_addressing (w : World) (body : JsValue) (x : Extracted)
    (d : string) (data : MessageData) :
  extract w body [] = (inr x, []) ->
  In (ESend d data) (snd (incoming_email w body)) ->
  d = MAILGUN_DOMAIN w /\ md_from data = FROM_EMAIL w /\ md_to data = sender x.
Proof.
  intros Hx Hin. destruct (send_event w body d data Hin) as [-> Hs].
  split; [reflexivity |].
  destruct (sent_message w body data Hs)
    as (x' & uc & tr & completion & reply & Hx' & _ & _ & _ & _ & Hc).
  rewrite Hx in Hx'. injection Hx' as <-.
  rewrite compose_run in Hc.
  destruct (ToString (Number_toString w) (subject x)); [discriminate |].
  injection Hc as <-. split; reflexivity.
Qed.

Lemma reply_addressing_witness :
  let body :=
    Samples.payload "a@x.com" "Hi" "What is 2+2?" "<7@x.com>" None in
  let data :=
    {| md_from := "assistant@mg.example.com";
       md_to := VStr "a@x.com";
       md_subject := "Re: Hi";
       md_text := "Four.";
       md_In_Reply_To := VStr "<7@x.com>";
       md_References := VStr "<7@x.com>" |} in
  In (ESend "mg.example.com" data) (snd (incoming_email Samples.friendly body))
  /\ md_to data = VStr "a@x.com".
Proof.
  intros body data.
  assert (Hin : In (ESend "mg.example.com" data)
                  (snd (incoming_email Samples.friendly body)))
    by (right; left; reflexivity).
  split; [exact Hin |].
  exact (proj2 (proj2 (reply_addressing Samples.friendly body
                         {| sender := VStr "a@x.com"; subject := VStr "Hi";
                            strippedText := VStr "What is 2+2?";
                            messageId := VStr "<7@x.com>";
                            attachments := VArr [] |}
                         "mg.example.com" data eq_refl Hin))).
Defined.

Lemma extract_failed (w : World) (body : JsValue) (e : exn) :
  extract w body [] = (inl e, []) ->
  incoming_email w body = (failure w e, []).
Proof.
  intro H. apply incoming_email_not_generated.
  unfold before_generation. now rewrite (bind_failed _ _ _ _ _ H).
Qed.

(** X4.  When the [attachments] field is a non-empty string that
    [JSON.parse] rejects, the route answers with the parser's error and
    makes no call. *)
Theorem invalid_attachments_json (w : World) (body : JsValue) (s : string)
    (e : exn) :
  get body "attachments" = inr (VStr s) ->
  s <> ""%string ->
  JSON_parse w s = inl e ->
  incoming_email w body = (failure w e, []).
Proof.
  intros Hraw Hs Hp. apply extract_failed.
  destruct (get_defined body _ "sender" _ Hraw) as [v1 H1].
  destruct (get_defined body _ "subject" _ Hraw) as [v2 H2].
  destruct (get_defined body _ "stripped-text" _ Hraw) as [v3 H3].
  destruct (get_defined body _ "Message-Id" _ Hraw) as [v4 H4].
  unfold extract, bind, lift. rewrite H1, H2, H3, H4, Hraw.
  unfold parse_attachments. simpl.
  destruct (String.eqb_spec s ""); [contradiction |]. simpl.
  now rewrite Hp.
Qed.

Lemma invalid_attachments_json_witness :
  incoming_email Samples.friendly
    (Samples.payload "a@x.com" "Hi" "Look" "<8@x.com>" (Some "[{"))
  = (json 500 "error" "Unexpected token in JSON", []).
Proof.
  refine (invalid_attachments_json Samples.friendly
            (Samples.payload "a@x.com" "Hi" "Look" "<8@x.com>" (Some "[{"))
            "[{" (SyntaxError "Unexpected token in JSON") eq_refl _ eq_refl).
  discriminate.
Defined.

(** The route when the extracted attachment list is the empty array. *)
Lemma no_attachment_no_fetch (w : World) (body : JsValue) (x : Extracted) :
  extract w body [] = (inr x, []) ->
  attachments x = VArr [] ->
  fetches (snd (incoming_email w body)) = []
  /\ (forall request,
         In request (completions (snd (incoming_email w body))) ->
         request_images request = []).
Proof.
  intros Hx Ha.
  pose proof (before_generation_run w body x Hx) as G.
  destruct (validate_pure x) as [r Hr]. rewrite Hr in G.
  destruct r as [e | []].
  - rewrite (incoming_email_not_generated w body _ _ G). simpl.
    split; [reflexivity | intros request []].
  - unfold build_userContent in G. rewrite Ha in G.
    unfold bind, lift, iterate in G. simpl in G.
    destruct (incoming_email_generated w body _ _ _ G)
      as (resp & rest & E & Hrest).
    rewrite E. simpl.
    destruct Hrest as [-> | [data ->]]; cbn [fetches completions flat_map app];
      (split; [reflexivity |]); intros request [<- | []];
      now rewrite request_images_of_content, initial_userContent_images.
Qed.

(** X5.  An [attachments] field that is the empty string is not parsed:
    whatever [JSON.parse] would make of it, the attachment list is empty,
    nothing is fetched and no request has an image part. *)
Theorem empty_attachments_field (w : World) (body : JsValue) :
  get body "attachments" = inr (VStr "") ->
  (exists x, extract w body [] = (inr x, []) /\ attachments x = VArr [])
  /\ fetches (snd (incoming_email w body)) = []
  /\ (forall request,
         In request (completions (snd (incoming_email w body))) ->
         request_images request = []).
Proof.
  intro Hraw.
  destruct (get_defined body _ "sender" _ Hraw) as [v1 H1].
  destruct (get_defined body _ "subject" _ Hraw) as [v2 H2].
  destruct (get_defined body _ "stripped-text" _ Hraw) as [v3 H3].
  destruct (get_defined body _ "Message-Id" _ Hraw) as [v4 H4].
  assert (Hx : extract w body [] =
                 (inr {| sender := v1; subject := v2; strippedText := v3;
                         messageId := v4; attachments := VArr [] |}, [])).
  { unfold extract, bind, lift. now rewrite H1, H2, H3, H4, Hraw. }
  split; [eexists; split; [exact Hx | reflexivity] |].
  now apply (no_attachment_no_fetch w body _ Hx).
Qed.

Lemma empty_attachments_field_witness :
  JSON_parse Samples.friendly "" = inl (SyntaxError "Unexpected token in JSON")
  /\ incoming_email Samples.friendly
       (Samples.payload "a@x.com" "Hi" "" "<9@x.com>" (Some ""))
     = (json 500 "error" "No email content or attachments found", [])
  /\ fetches
       (snd (incoming_email Samples.friendly
               (Samples.payload "a@x.com" "Hi" "Look" "<9@x.com>" (Some ""))))
     = [].
Proof.
  split; [reflexivity |]. split; [reflexivity |].
  exact (proj1 (proj2 (empty_attachments_field Samples.friendly
                         (Samples.payload "a@x.com" "Hi" "Look" "<9@x.com>"
                            (Some ""))
                         eq_refl))).
Defined.

Section Aborts.
Variable w : World.

Lemma process_attachment_rejected (a : AttachmentRef) (e : exn)
    (uc : list ContentPart) (tr : trace) :
  is_image a = true ->
  fetch w tr (VStr (url a)) = inl e ->
  process_attachment w (attachment_object a) uc tr =
    (inl e, tr ++ [EFetch (VStr (url a))]).
Proof.
  intros Hi Hf. unfold process_attachment.
  rewrite get_content_type. unfold bind at 1. unfold lift at 1.
  rewrite startsWith_image. unfold bind at 1. unfold lift at 1.
  rewrite Hi, get_url. unfold bind at 1. unfold lift at 1.
  unfold downloadAttachment, bind, await. now rewrite Hf.
Qed.

Lemma process_attachment_unreadable (a : AttachmentRef) (r : FetchResponse)
    (e : exn) (uc : list ContentPart) (tr : trace) :
  is_image a = true ->
  fetch w tr (VStr (url a)) = inr r -> ok r = true ->
  arrayBuffer r = inl e ->
  process_attachment w (attachment_object a) uc tr =
    (inl e, tr ++ [EFetch (VStr (url a))]).
Proof.
  intros Hi Hf Hok Hb. unfold process_attachment.
  rewrite get_content_type. unfold bind at 1. unfold lift at 1.
  rewrite startsWith_image. unfold bind at 1. unfold lift at 1.
  rewrite Hi, get_url. unfold bind at 1. unfold lift at 1.
  unfold downloadAttachment, bind, await, lift. now rewrite Hf, Hok, Hb.
Qed.

(** A turn of the loop that throws ends the request with what it threw. *)
Lemma attachment_failure_aborts (body : JsValue) (x : Extracted)
    (pre : list AttachmentRef) (a : AttachmentRef) (post : list AttachmentRef)
    (uc : list ContentPart) (tr tr1 : trace) (e : exn) :
  extract w body [] = (inr x, []) ->
  attachments x = VArr (map attachment_object (pre ++ a :: post)) ->
  process_attachments w (map attachment_object pre)
    (initial_userContent x) [] = (inr uc, tr) ->
  process_attachment w (attachment_object a) uc tr = (inl e, tr1) ->
  incoming_email w body = (failure w e, tr1).
Proof.
  intros Hx Ha Hpre Hfail. apply incoming_email_not_generated.
  rewrite (before_generation_run w body x Hx).
  assert (V : validate x [] = (inr tt, [])).
  { destruct (map attachment_object (pre ++ a :: post)) as [| v l] eqn:E.
    - apply map_eq_nil in E. now destruct pre.
    - now apply validate_accepts_attachments with v l. }
  rewrite V. unfold build_userContent. rewrite Ha.
  unfold bind at 1. unfold lift, iterate.
  rewrite map_app, process_attachments_app, Hpre. simpl.
  now rewrite (bind_failed _ _ _ _ _ Hfail).
Qed.
End Aborts.

(** X6.  When the fetch of an image attachment cannot be made, or its
    body cannot be read, the route answers with that very error, not with
    the download error of a refused fetch; the failed fetch is its last
    call. *)
Theorem unreachable_image_aborts (w : World) (body : JsValue) (x : Extracted)
    (pre : list AttachmentRef) (a : AttachmentRef) (post : list AttachmentRef)
    (uc : list ContentPart) (tr : trace) :
  extract w body [] = (inr x, []) ->
  attachments x = VArr (map attachment_object (pre ++ a :: post)) ->
  process_attachments w (map attachment_object pre)
    (initial_userContent x) [] = (inr uc, tr) ->
  is_image a = true ->
  (forall e,
      fetch w tr (VStr (url a)) = inl e ->
      incoming_email w body = (failure w e, tr ++ [EFetch (VStr (url a))]))
  /\
  (forall r e,
      fetch w tr (VStr (url a)) = inr r -> ok r = true ->
      arrayBuffer r = inl e ->
      incoming_email w body = (failure w e, tr ++ [EFetch (VStr (url a))])).
Proof.
  intros Hx Ha Hpre Hi. split.
  - intros e Hf.
    eapply attachment_failure_aborts; eauto.
    now apply process_attachment_rejected.
  - intros r e Hf Hok Hb.
    eapply attachment_failure_aborts; eauto.
    now apply process_attachment_unreadable with r.
Qed.

Lemma unreachable_image_aborts_witness :
  let body :=
    Samples.payload "a@x.com" "Hi" "Look" "<10@x.com>"
      (Some MoreSamples.cat_only_text) in
  incoming_email
    (MoreSamples.world MoreSamples.offline
       (inr (Samples.one_choice (Some "A cat."))) (inr tt)) body
  = (json 500 "error" "fetch failed",
     [EFetch (VStr "https://files.example/cat.png")])
  /\
  incoming_email
    (MoreSamples.world MoreSamples.truncated
       (inr (Samples.one_choice (Some "A cat."))) (inr tt)) body
  = (json 500 "error" "terminated",
     [EFetch (VStr "https://files.example/cat.png")]).
Proof.
  intro body. split.
  - refine (proj1 (unreachable_image_aborts
                     (MoreSamples.world MoreSamples.offline
                        (inr (Samples.one_choice (Some "A cat."))) (inr tt))
                     body _ [] Samples.cat [] _ []
                     eq_refl eq_refl eq_refl eq_refl)
              (Error "fetch failed") eq_refl).
  - refine (proj2 (unreachable_image_aborts
                     (MoreSamples.world MoreSamples.truncated
                        (inr (Samples.one_choice (Some "A cat."))) (inr tt))
                     body _ [] Samples.cat [] _ []
                     eq_refl eq_refl eq_refl eq_refl)
              {| ok := true; status := 200; statusText := "OK";
                 arrayBuffer := inl (Error "terminated") |}
              (Error "terminated") eq_refl eq_refl eq_refl).
Defined.

(** X7.  When the completion provider rejects the request, the route
    answers with the provider's error; the completion call is its last
    call and nothing is sent. *)
Theorem provider_rejection (w : World) (body : JsValue) (x : Extracted)
    (uc : list ContentPart) (tr : trace) (e : exn) :
  before_generation w body [] = (inr (x, uc), tr) ->
  chat_completions_create w tr (completion_request uc) = inl e ->
  incoming_email w body =
    (failure w e, tr ++ [ECompletion (completion_request uc)])
  /\ sends (tr ++ [ECompletion (completion_request uc)]) = [].
Proof.
  intros G C. split.
  - apply incoming_email_failed.
    now rewrite before_dispatch_run, G, generate_run, C.
  - rewrite sends_app.
    now rewrite (is_fetch_sends _ (before_generation_fetches w _ _ _ G)).
Qed.

Lemma provider_rejection_witness :
  incoming_email
    (Samples.world (inl (Error "429 Rate limit reached")) (inr tt))
    (Samples.payload "a@x.com" "Hi" "What is 2+2?" "<11@x.com>" None)
  = (json 500 "error" "429 Rate limit reached",
     [ECompletion (completion_request [text_part (VStr "What is 2+2?")])]).
Proof.
  refine (proj1 (provider_rejection
                   (Samples.world (inl (Error "429 Rate limit reached"))
                      (inr tt))
                   (Samples.payload "a@x.com" "Hi" "What is 2+2?"
                      "<11@x.com>" None)
                   {| sender := VStr "a@x.com"; subject := VStr "Hi";
                      strippedText := VStr "What is 2+2?";
                      messageId := VStr "<11@x.com>";
                      attachments := VArr [] |}
                   [text_part (VStr "What is 2+2?")] []
                   (Error "429 Rate limit reached") eq_refl eq_refl)).
Defined.

(** X8.  When the mail client rejects the reply, the route answers with
    the client's error ("An unknown error occurred" when what was thrown
    is not an error object).  The reply had been generated, by the one
    completion call of the request, and the send was tried once. *)
Theorem mail_rejection (w : World) (body : JsValue) (data : MessageData)
    (tr : trace) (e : exn) :
  before_dispatch w body [] = (inr data, tr) ->
  messages_create w tr (MAILGUN_DOMAIN w) data = inl e ->
  incoming_email w body =
    (json 500 "error"
       match e with
       | Error m | SyntaxError m => m
       | TypeError why => TypeError_message w why
       | NonError => "An unknown error occurred"
       end,
     tr ++ [ESend (MAILGUN_DOMAIN w) data])
  /\ (exists request, completions tr = [request])
  /\ sends tr = [].
Proof.
  intros E Hm. split; [| split].
  - rewrite (incoming_email_dispatched w body data tr E), Hm.
    now destruct e.
  - rewrite before_dispatch_run in E.
    destruct (before_generation w body []) as [[e0 | [x uc]] tr0] eqn:G;
      [discriminate |].
    exists (completion_request uc).
    assert (Htr : tr = tr0 ++ [ECompletion (completion_request uc)]).
    { destruct (fst (generate w uc tr0)) as [e1 | reply].
      - discriminate.
      - destruct (compose_pure w x reply) as [r Hr]. rewrite Hr in E.
        now injection E as _ <-. }
    rewrite Htr, completions_app.
    now rewrite (is_fetch_completions _
                   (before_generation_fetches w _ _ _ G)).
  - exact (before_dispatch_sends w body _ _ E).
Qed.

Lemma mail_rejection_witness :
  incoming_email (Samples.world (inr (Samples.one_choice (Some "Four.")))
                    (inl NonError))
    (Samples.payload "a@x.com" "Hi" "What is 2+2?" "<12@x.com>" None)
  = (json 500 "error" "An unknown error occurred",
     [ECompletion (completion_request [text_part (VStr "What is 2+2?")]);
      ESend "mg.example.com"
        {| md_from := "assistant@mg.example.com";
           md_to := VStr "a@x.com";
           md_subject := "Re: Hi";
           md_text := "Four.";
           md_In_Reply_To := VStr "<12@x.com>";
           md_References := VStr "<12@x.com>" |}]).
Proof.
  refine (proj1 (mail_rejection
                   (Samples.world (inr (Samples.one_choice (Some "Four.")))
                      (inl NonError))
                   (Samples.payload "a@x.com" "Hi" "What is 2+2?"
                      "<12@x.com>" None)
                   _ _ NonError eq_refl eq_refl)).
Defined.

Lemma array_length_zero (l : list JsValue) :
  strict_equals_zero (VNum (number_of_N (N.of_nat (List.length l))))
  = match l with [] => true | _ :: _ => false end.
Proof. now destruct l. Qed.

(** X9.  The validation of lines 85-87.  With an array of attachments it
    fails, with the validation error, exactly when the text is falsy and
    the array is empty.  With a text it passes without looking at the
    attachments, whatever they are.  With a falsy text and attachments
    that parsed to [null], reading their length throws instead. *)
Theorem validation_outcome (x : Extracted) (tr : trace) :
  (forall l,
      attachments x = VArr l ->
      (validate x tr = (inl ValidationError, tr) <->
       ToBoolean (strippedText x) = false /\ l = []) /\
      (validate x tr = (inr tt, tr) <->
       ToBoolean (strippedText x) = true \/ l <> []))
  /\
  (ToBoolean (strippedText x) = true -> validate x tr = (inr tt, tr))
  /\
  (ToBoolean (strippedText x) = false -> attachments x = VNull ->
   validate x tr = (inl (TypeError (ReadOfNullish VNull "length")), tr)).
Proof.
  split; [| split].
  - intros l Ha. unfold validate, bind, lift, ret, throw. rewrite Ha.
    destruct (ToBoolean (strippedText x)); cbn [negb get String.eqb].
    + split; split; auto; try discriminate. now intros [? _].
    + cbn [Ascii.eqb Bool.eqb]. rewrite array_length_zero.
      destruct l as [| v l]; split; split; auto; try discriminate.
      * now intros [? | ?].
      * now intros [_ ?].
      * intros _. right. discriminate.
  - apply validate_accepts_text.
  - intros Ht Ha. unfold validate, bind, lift. now rewrite Ht, Ha.
Qed.

Lemma validation_outcome_witness :
  let x := {| sender := VStr "a@x.com"; subject := VStr "Hi";
              strippedText := VStr "";
              messageId := VUndefined;
              attachments := VArr [attachment_object Samples.pdf] |} in
  validate x [] = (inr tt, []).
Proof.
  intro x.
  apply (proj2 (proj1 (validation_outcome x [])
                  [attachment_object Samples.pdf] eq_refl)).
  right. discriminate.
Defined.

(** X10.  For a record with an empty text and typed attachments, the user
    content has no text part: when it is returned it is one image part
    per image attachment, in the order of the attachments, and only these
    were fetched; and it is returned whenever each image attachment is
    delivered. *)
Theorem images_without_text (w : World) (x : Extracted)
    (atts : list AttachmentRef) (tr : trace) :
  ToBoolean (strippedText x) = false ->
  attachments x = VArr (map attachment_object atts) ->
  (forall parts tr',
      build_userContent w x tr = (inr parts, tr') ->
      Forall2 (fun a p => exists bytes, p = image_part a bytes)
        (filter is_image atts) parts /\
      tr' = tr ++ map (fun a => EFetch (VStr (url a))) (filter is_image atts))
  /\
  (forall bytes : AttachmentRef -> list byte,
      (forall a h, In a atts -> is_image a = true ->
         exists r, fetch w h (VStr (url a)) = inr r /\ ok r = true /\
                   arrayBuffer r = inr (bytes a)) ->
      build_userContent w x tr =
        (inr (map (fun a => image_part a (bytes a)) (filter is_image atts)),
         tr ++ map (fun a => EFetch (VStr (url a))) (filter is_image atts))).
Proof.
  intros Ht Ha.
  unfold build_userContent, initial_userContent. rewrite Ht, Ha.
  unfold bind, lift, iterate. split.
  - intros parts tr' H.
    destruct (process_attachments_typed_inv w atts _ _ _ _ H)
      as (rest & -> & F & ->).
    now split.
  - intros bytes Hnet.
    now rewrite (process_attachments_typed w bytes atts Hnet).
Qed.

Lemma images_without_text_witness :
  let x := {| sender := VStr "a@x.com"; subject := VStr "Hi";
              strippedText := VStr "";
              messageId := VStr "<13@x.com>";
              attachments :=
                VArr (map attachment_object
                        [Samples.pdf; Samples.cat; Samples.dog]) |} in
  build_userContent Samples.friendly x [] =
    (inr [image_url_part "data:image/png;base64,iVBO";
          image_url_part "data:image/jpeg;base64,/9g="],
     [EFetch (VStr "https://files.example/cat.png");
      EFetch (VStr "https://files.example/dog.jpg")]).
Proof.
  intro x.
  apply (proj2 (images_without_text Samples.friendly x
                  [Samples.pdf; Samples.cat; Samples.dog] []
                  eq_refl eq_refl)
           (fun a => if String.eqb (url a) (url Samples.cat)
                     then Samples.png_bytes else Samples.jpg_bytes)).
  intros a h [<- | [<- | [<- | []]]] Hi; try discriminate Hi;
    eexists; repeat split; reflexivity.
Defined.

(** X11.  The route reads five fields of the body, "sender", "subject",
    "stripped-text", "Message-Id" and "attachments": two bodies that agree
    on them get the same answer, through the same calls. *)
Theorem unread_fields_ignored (w : World) (body body' : JsValue) :
  (forall k,
      In k ["sender"; "subject"; "stripped-text"; "Message-Id"; "attachments"]
      -> get body k = get body' k) ->
  incoming_email w body = incoming_email w body'.
Proof.
  intro H.
  unfold incoming_email, try_block, before_dispatch, before_generation,
    extract.
  rewrite (H "sender"), (H "subject"), (H "stripped-text"),
    (H "Message-Id"), (H "attachments"); simpl; auto 6.
Qed.

Lemma unread_fields_ignored_witness :
  incoming_email Samples.friendly
    (VObj [("recipient", VStr "bot@mg.example.com");
           ("sender", VStr "a@x.com"); ("subject", VStr "Hi");
           ("stripped-text", VStr "What is 2+2?");
           ("body-html", VStr "<p>What is 2+2?</p>")])
  = incoming_email Samples.friendly
      (VObj [("sender", VStr "a@x.com"); ("subject", VStr "Hi");
             ("stripped-text", VStr "What is 2+2?")]).
Proof.
  apply unread_fields_ignored.
  intros k [<- | [<- | [<- | [<- | [<- | []]]]]]; reflexivity.
Defined.

Section Reads.
Variable w : World.

(** Of an attachment the loop reads the content type and the URL only. *)
Lemma process_attachments_reads (l l' : list JsValue) :
  Forall2 (fun v v' =>
             get v "content-type" = get v' "content-type" /\
             get v "url" = get v' "url") l l' ->
  forall uc tr,
    process_attachments w l uc tr = process_attachments w l' uc tr.
Proof.
  induction 1 as [| v v' l l' [Hct Hurl] _ IH]; intros uc tr;
    [reflexivity |].
  simpl. unfold bind.
  assert (E : process_attachment w v uc tr = process_attachment w v' uc tr)
    by (unfold process_attachment; now rewrite Hct, Hurl).
  rewrite E.
  destruct (process_attachment w v' uc tr) as [[e | uc1] tr1]; auto.
Qed.

Lemma before_dispatch_reads (body body' : JsValue) (x x' : Extracted)
    (l l' : list JsValue) :
  extract w body [] = (inr x, []) ->
  extract w body' [] = (inr x', []) ->
  sender x = sender x' -> subject x = subject x' ->
  strippedText x = strippedText x' -> messageId x = messageId x' ->
  attachments x = VArr l -> attachments x' = VArr l' ->
  Forall2 (fun v v' =>
             get v "content-type" = get v' "content-type" /\
             get v "url" = get v' "url") l l' ->
  before_dispatch w body [] = before_dispatch w body' [].
Proof.
  intros Hx Hx' Hs Hj Ht Hi Ha Ha' F.
  rewrite !before_dispatch_run.
  rewrite (before_generation_run w body x Hx).
  rewrite (before_generation_run w body' x' Hx').
  assert (V : validate x [] = validate x' []).
  { unfold validate. rewrite Ht, Ha, Ha'. simpl.
    now rewrite (Forall2_length F). }
  assert (B : build_userContent w x [] = build_userContent w x' []).
  { unfold build_userContent, initial_userContent.
    rewrite Ht, Ha, Ha'. unfold bind, lift, iterate.
    apply (process_attachments_reads l l' F). }
  rewrite V, B.
  destruct (validate x' []) as [[e | u] tr0]; [reflexivity |].
  destruct (build_userContent w x' []) as [[e | uc] tr]; [reflexivity |].
  destruct (fst (generate w uc tr)) as [e | reply]; [reflexivity |].
  now rewrite !compose_run, Hs, Hj, Hi.
Qed.
End Reads.

(** X12.  Of each attachment the route reads the content type and the URL
    only: two payloads that extract to the same sender, subject, text and
    message id, and to attachment lists that agree, one by one, on these
    two fields, get the same answer through the same calls, whatever the
    names, the sizes and the other fields of the attachments. *)
Theorem attachment_fields_read (w : World) (body body' : JsValue)
    (x x' : Extracted) (l l' : list JsValue) :
  extract w body [] = (inr x, []) ->
  extract w body' [] = (inr x', []) ->
  sender x = sender x' -> subject x = subject x' ->
  strippedText x = strippedText x' -> messageId x = messageId x' ->
  attachments x = VArr l -> attachments x' = VArr l' ->
  Forall2 (fun v v' =>
             get v "content-type" = get v' "content-type" /\
             get v "url" = get v' "url") l l' ->
  incoming_email w body = incoming_email w body'.
Proof.
  intros Hx Hx' Hs Hj Ht Hi Ha Ha' F.
  unfold incoming_email, try_block, bind.
  now rewrite (before_dispatch_reads w body body' x x' l l'
                 Hx Hx' Hs Hj Ht Hi Ha Ha' F).
Qed.

Lemma attachment_fields_read_witness :
  incoming_email MoreSamples.friendly
    (Samples.payload "a@x.com" "Hi" "Look" "<14@x.com>"
       (Some MoreSamples.cat_only_text))
  = incoming_email MoreSamples.friendly
      (Samples.payload "a@x.com" "Hi" "Look" "<14@x.com>"
         (Some MoreSamples.renamed_text)).
Proof.
  refine (attachment_fields_read MoreSamples.friendly
            (Samples.payload "a@x.com" "Hi" "Look" "<14@x.com>"
               (Some MoreSamples.cat_only_text))
            (Samples.payload "a@x.com" "Hi" "Look" "<14@x.com>"
               (Some MoreSamples.renamed_text))
            _ _ [attachment_object Samples.cat]
            [attachment_object MoreSamples.renamed_cat]
            eq_refl eq_refl eq_refl eq_refl eq_refl eq_refl eq_refl eq_refl
            _).
  constructor; [split; reflexivity | constructor].
Defined.

(** A character of a string has no content type: the first turn of a
    loop over a non-empty string throws. *)
Lemma process_characters (w : World) (s : string) (uc : list ContentPart)
    (tr : trace) :
  exists r,
    process_attachments w
      (map (fun c => VStr (String c "")) (list_ascii_of_string s)) uc tr
    = (r, tr).
Proof.
  destruct s as [| c s]; simpl.
  - now exists (inr uc).
  - now exists (inl (TypeError (ReadOfNullish VUndefined "startsWith"))).
Qed.

(** X13.  Attachments that parse to anything but an array are never
    fetched: a number, a boolean, an object or [null] is not iterable, and
    the characters of a string declare no content type. *)
Theorem non_array_never_fetched (w : World) (body : JsValue) (x : Extracted) :
  extract w body [] = (inr x, []) ->
  (forall l, attachments x <> VArr l) ->
  fetches (snd (incoming_email w body)) = [].
Proof.
  intros Hx Hna.
  assert (G : exists r, before_generation w body [] = (r, [])).
  { rewrite (before_generation_run w body x Hx).
    destruct (validate_pure x) as [r0 Hr]. rewrite Hr.
    destruct r0 as [e | []]; [eauto |].
    unfold build_userContent, bind, lift.
    destruct (attachments x) as [| | b | n | s | l | props] eqn:Ha;
      simpl; eauto.
    - destruct (process_characters w s (initial_userContent x) [])
        as [r ->].
      destruct r; eauto.
    - destruct (Hna l eq_refl). }
  destruct G as [r G]. pose proof (incoming_email_calls w body) as H.
  rewrite G in H. destruct r as [e | [x' uc]].
  - now rewrite H.
  - destruct H as (resp & rest & -> & [-> | (data & ->)]); reflexivity.
Qed.

Lemma non_array_never_fetched_witness :
  fetches
    (snd (incoming_email MoreSamples.friendly
            (Samples.payload "a@x.com" "Hi" "Look" "<15@x.com>"
               (Some MoreSamples.object_text))))
  = [].
Proof.
  refine (non_array_never_fetched MoreSamples.friendly
            (Samples.payload "a@x.com" "Hi" "Look" "<15@x.com>"
               (Some MoreSamples.object_text))
            _ eq_refl _).
  intros l. discriminate.
Defined.

(** X14.  A payload without a subject is answered under the subject
    "Re: undefined": the absent field is rendered, not replaced by an
    empty subject. *)
Theorem missing_subject (w : World) (props : list (string * JsValue))
    (data : MessageData) :
  assoc "subject" props = None ->
  In data (sends (snd (incoming_email w (VObj props)))) ->
  md_subject data = "Re: undefined"%string.
Proof.
  intros Hs Hin.
  destruct (sent_message w _ data Hin)
    as (x & uc & tr & completion & reply & Hx & _ & _ & _ & _ & Hc).
  destruct (extract_fields w _ x Hx) as (_ & Hj & _).
  simpl in Hj. rewrite Hs in Hj. injection Hj as Hj.
  rewrite compose_run, <- Hj in Hc. simpl in Hc. now injection Hc as <-.
Qed.

Lemma missing_subject_witness :
  let props := [("sender", VStr "a@x.com"); ("stripped-text", VStr "hello")] in
  let data :=
    {| md_from := "assistant@mg.example.com";
       md_to := VStr "a@x.com";
       md_subject := "Re: undefined";
       md_text := "Four.";
       md_In_Reply_To := VUndefined;
       md_References := VUndefined |} in
  In data (sends (snd (incoming_email Samples.friendly (VObj props))))
  /\ md_subject data = "Re: undefined"%string.
Proof.
  intros props data.
  assert (Hin : In data
                  (sends (snd (incoming_email Samples.friendly (VObj props)))))
    by (left; reflexivity).
  split; [exact Hin |].
  exact (missing_subject Samples.friendly props data eq_refl Hin).
Defined.

(** ** The earlier variants *)

(** X15.  The text-only variant rejects every payload whose text is
    falsy, attachments or not, with its own error, and makes no call. *)
Theorem text_only_rejects_empty_text (sv : TextOnly.Services)
    (body st : JsValue) :
  get body "stripped-text" = inr st ->
  ToBoolean st = false ->
  TextOnly.incoming_email sv body =
    (json 500 "error" "No email content found", []).
Proof.
  intros Hst Ht.
  destruct (get_defined body _ "sender" _ Hst) as [v1 H1].
  destruct (get_defined body _ "subject" _ Hst) as [v2 H2].
  destruct (get_defined body _ "Message-Id" _ Hst) as [v4 H4].
  unfold TextOnly.incoming_email, TextOnly.try_block, run_bind, run_lift,
    run_throw.
  now rewrite H1, H2, Hst, H4, Ht.
Qed.

Lemma text_only_rejects_empty_text_witness :
  TextOnly.incoming_email
    (TextOnly.services (inr (Samples.one_choice (Some "Four."))) (inr tt))
    Samples.pdf_only_mail
  = (json 500 "error" "No email content found", []).
Proof.
  exact (text_only_rejects_empty_text
           (TextOnly.services (inr (Samples.one_choice (Some "Four.")))
              (inr tt))
           Samples.pdf_only_mail (VStr "") eq_refl eq_refl).
Defined.

(** X16.  The calls of the text-only variant, for every payload: none; or
    one completion call, whose user message is the text of the payload as
    it came; or that call followed by one send, through the configured
    domain, from the configured address, to the sender of the payload and
    threaded on its message id. *)
Theorem text_only_calls (sv : TextOnly.Services) (body : JsValue) :
  snd (TextOnly.incoming_email sv body) = []
  \/
  exists sender st id,
    get body "sender" = inr sender /\
    get body "stripped-text" = inr st /\
    get body "Message-Id" = inr id /\
    ToBoolean st = true /\
    (snd (TextOnly.incoming_email sv body) =
       [TextOnly.Completion (TextOnly.request st)]
     \/
     exists data,
       snd (TextOnly.incoming_email sv body) =
         [TextOnly.Completion (TextOnly.request st);
          TextOnly.Send (TextOnly.MAILGUN_DOMAIN sv) data] /\
       md_from data = TextOnly.FROM_EMAIL sv /\
       md_to data = sender /\
       md_In_Reply_To data = id /\ md_References data = id).
Proof.
  unfold TextOnly.incoming_email, TextOnly.try_block, run_bind, run_lift,
    run_throw, run_ret, run_await.
  destruct (get body "sender") as [e | sender]; [now left |].
  destruct (get body "subject") as [e | subject]; [now left |].
  destruct (get body "stripped-text") as [e | st]; [now left |].
  destruct (get body "Message-Id") as [e | id]; [now left |].
  destruct (ToBoolean st) eqn:Ht; simpl; [| now left].
  right. exists sender, st, id. repeat split; auto.
  destruct (TextOnly.create sv [] (TextOnly.request st)) as [e | completion];
    [now left |].
  destruct (first_content completion) as [reply |]; [| now left].
  destruct (String.eqb reply ""); [now left |].
  destruct (ToString (TextOnly.Number_toString sv) subject) as [e | s];
    [now left |].
  right. eexists. split.
  - destruct (TextOnly.send sv _ _ _); reflexivity.
  - repeat split; reflexivity.
Qed.

(** X17.  On a payload with a text and no attachment, the current route
    and the text-only variant hand the same message to the mail client,
    when they are configured alike and their providers answer with the
    same first choice. *)
Theorem same_reply_without_attachment (w : World) (sv : TextOnly.Services)
    (body : JsValue) (x : Extracted) (c c' : ChatCompletion) :
  extract w body [] = (inr x, []) ->
  attachments x = VArr [] ->
  ToBoolean (strippedText x) = true ->
  FROM_EMAIL w = TextOnly.FROM_EMAIL sv ->
  Number_toString w = TextOnly.Number_toString sv ->
  chat_completions_create w []
    (completion_request [text_part (strippedText x)]) = inr c ->
  TextOnly.create sv [] (TextOnly.request (strippedText x)) = inr c' ->
  first_content c = first_content c' ->
  sends (snd (incoming_email w body))
  = TextOnly.sent (snd (TextOnly.incoming_email sv body)).
Proof.
  intros Hx Ha Ht Hfrom Hnum Hc Hc' Hf.
  destruct (extract_fields w body x Hx) as (H1 & H2 & H3 & H4 & _).
  (* the text-only variant *)
  unfold TextOnly.incoming_email, TextOnly.try_block, run_bind, run_lift,
    run_throw, run_ret, run_await.
  rewrite H1, H2, H3, H4, Ht. cbn [negb]. rewrite Hc', <- Hf, <- Hnum.
  (* the current route *)
  assert (G : before_generation w body [] =
                (inr (x, [text_part (strippedText x)]), [])).
  { rewrite (before_generation_run w body x Hx).
    rewrite (validate_accepts_text x [] Ht).
    unfold build_userContent, initial_userContent. rewrite Ht, Ha.
    reflexivity. }
  pose proof (before_dispatch_run w body) as E.
  rewrite G, generate_run, Hc in E. cbn [fst app] in E.
  destruct (first_content c) as [reply |].
  2:{ now rewrite (incoming_email_failed w body _ _ E). }
  destruct (String.eqb reply "").
  { now rewrite (incoming_email_failed w body _ _ E). }
  rewrite compose_run in E.
  destruct (ToString (Number_toString w) (subject x)) as [e | s].
  { now rewrite (incoming_email_failed w body _ _ E). }
  rewrite (incoming_email_dispatched w body _ _ E). rewrite Hfrom.
  now destruct (TextOnly.send sv _ _ _).
Qed.

Lemma same_reply_without_attachment_witness :
  sends (snd (incoming_email Samples.friendly
                (Samples.payload "a@x.com" "Hi" "What is 2+2?" "<16@x.com>"
                   None)))
  = TextOnly.sent
      (snd (TextOnly.incoming_email
              (TextOnly.services (inr (Samples.one_choice (Some "Four.")))
                 (inr tt))
              (Samples.payload "a@x.com" "Hi" "What is 2+2?" "<16@x.com>"
                 None))).
Proof.
  refine (same_reply_without_attachment Samples.friendly
            (TextOnly.services (inr (Samples.one_choice (Some "Four.")))
               (inr tt))
            (Samples.payload "a@x.com" "Hi" "What is 2+2?" "<16@x.com>" None)
            _ _ _ eq_refl eq_refl eq_refl eq_refl eq_refl eq_refl eq_refl
            eq_refl).
Defined.

Lemma prefix_of_append (s r : string) : String.prefix s (s ++ r)%string = true.
Proof.
  induction s as [| c s IH]; simpl; [now destruct r |].
  destruct (Ascii.ascii_dec c c); [exact IH | contradiction].
Qed.

(** X18.  Every mail the quoting variant sends is a non-empty reply of
    the provider's first choice, followed by a blank line and the quoted
    original: a separator line, the sender, the subject, a blank line and
    the text, each field rendered as a template renders it.  Its subject
    is "Re: " and the rendered subject, its recipient the sender field. *)
Theorem quoted_mail (sv : Quoted.Services)
    (fields : list (string * Quoted.FormValue)) (mail : Quoted.Mail) :
  In mail (Quoted.sent (snd (Quoted.incoming_email sv (inr fields)))) ->
  exists completion reply,
    Quoted.create sv []
      (Quoted.request (assoc "stripped-text" fields)) = inr completion /\
    first_content completion = Some reply /\
    reply <> ""%string /\
    Quoted.mail_text mail =
      (reply ++ Quoted.nl ++ Quoted.nl
         ++ "------ Original Message ------" ++ Quoted.nl
         ++ "From: " ++ Quoted.to_string (assoc "sender" fields) ++ Quoted.nl
         ++ "Subject: " ++ Quoted.to_string (assoc "subject" fields)
         ++ Quoted.nl ++ Quoted.nl
         ++ Quoted.to_string (assoc "stripped-text" fields))%string /\
    String.prefix reply (Quoted.mail_text mail) = true /\
    Quoted.mail_subject mail =
      ("Re: " ++ Quoted.to_string (assoc "subject" fields))%string /\
    Quoted.mail_to mail = assoc "sender" fields /\
    Quoted.mail_from mail = Quoted.FROM_EMAIL sv.
Proof.
  unfold Quoted.incoming_email, Quoted.try_block, run_bind, run_lift,
    run_throw, run_ret, run_await.
  destruct (Quoted.truthy (assoc "stripped-text" fields)); simpl;
    [| intros []].
  destruct (Quoted.create sv [] _) as [e | completion] eqn:C;
    [intros [] |].
  destruct (first_content completion) as [reply |] eqn:F; [| intros []].
  destruct (String.eqb_spec reply ""); [intros [] |].
  intro Hin.
  assert (Hm : mail =
                 {| Quoted.mail_from := Quoted.FROM_EMAIL sv;
                    Quoted.mail_to := assoc "sender" fields;
                    Quoted.mail_subject :=
                      ("Re: " ++ Quoted.to_string (assoc "subject" fields))%string;
                    Quoted.mail_text :=
                      Quoted.quote reply (assoc "sender" fields)
                        (assoc "subject" fields)
                        (assoc "stripped-text" fields) |}).
  { destruct (Quoted.send sv _ _ _); simpl in Hin;
      destruct Hin as [<- | []]; reflexivity. }
  subst mail. exists completion, reply. simpl.
  repeat split; auto. apply prefix_of_append.
Qed.

Lemma quoted_mail_witness :
  let mail :=
    {| Quoted.mail_from := "assistant@mg.example.com";
       Quoted.mail_to := Some (Quoted.FormText "a@x.com");
       Quoted.mail_subject := "Re: undefined";
       Quoted.mail_text :=
         ("Four." ++ Quoted.nl ++ Quoted.nl
            ++ "------ Original Message ------" ++ Quoted.nl
            ++ "From: a@x.com" ++ Quoted.nl
            ++ "Subject: undefined" ++ Quoted.nl ++ Quoted.nl
            ++ "What is 2+2?")%string |} in
  exists completion reply,
    first_content completion = Some reply /\
    reply <> ""%string /\
    String.prefix reply (Quoted.mail_text mail) = true.
Proof.
  intro mail.
  assert (Hin : In mail
                  (Quoted.sent
                     (snd (Quoted.incoming_email
                             (Quoted.services
                                (inr (Samples.one_choice (Some "Four.")))
                                (inr tt))
                             (inr [("sender", Quoted.FormText "a@x.com");
                                   ("stripped-text",
                                    Quoted.FormText "What is 2+2?")])))))
    by (left; reflexivity).
  destruct (quoted_mail _ _ _ Hin) as (c & r & _ & F & N & _ & P & _).
  exists c, r. split; [exact F |]. split; [exact N | exact P].
Defined.

(** X19.  The quoting variant makes a call exactly when the form body was
    parsed and its text is truthy; otherwise it answers with the parser's
    error, or with "No email content found", and calls nobody.  When it
    makes calls, the first is the completion call, whose user message is
    the text field as it came. *)
Theorem quoted_calls (sv : Quoted.Services)
    (parsed : result (list (string * Quoted.FormValue))) :
  match parsed with
  | inl e =>
      Quoted.incoming_email sv parsed =
        (json 500 "error" (Quoted.errorMessage sv e), [])
  | inr fields =>
      if Quoted.truthy (assoc "stripped-text" fields)
      then exists rest,
             snd (Quoted.incoming_email sv parsed) =
               Quoted.Completion
                 (Quoted.request (assoc "stripped-text" fields)) :: rest /\
             (rest = [] \/
              exists mail, rest = [Quoted.Send (Quoted.MAILGUN_DOMAIN sv) mail])
      else Quoted.incoming_email sv parsed =
             (json 500 "error" "No email content found", [])
  end.
Proof.
  unfold Quoted.incoming_email, Quoted.try_block, run_bind, run_lift,
    run_throw, run_ret, run_await.
  destruct parsed as [e | fields]; [reflexivity |].
  destruct (Quoted.truthy (assoc "stripped-text" fields)); simpl;
    [| reflexivity].
  assert (Hnone : forall (c : Quoted.call),
             exists rest,
               [c] = c :: rest /\
               (rest = [] \/
                exists mail,
                  rest = [Quoted.Send (Quoted.MAILGUN_DOMAIN sv) mail]))
    by (intro c; exists []; split; [reflexivity | now left]).
  destruct (Quoted.create sv [] _) as [e | completion]; [apply Hnone |].
  destruct (first_content completion) as [reply |]; [| apply Hnone].
  destruct (String.eqb reply ""); [apply Hnone |].
  eexists. split.
  - destruct (Quoted.send sv _ _ _); reflexivity.
  - right. eauto.
Qed.
